(** * The C/C++ build-configuration manager of
      [packages/cpp/src/browser/cpp-build-configurations.ts]

    A shallow embedding of [CppBuildConfigurationManagerImpl]: the
    in-memory map of active build configurations per workspace root, its
    snapshot in the storage service, the two change emitters, the
    re-validation run on a preference change, and the filter-and-sort that
    computes the valid configurations. *)

From Stdlib Require Import String Ascii List ZArith Bool Lia.
From Stdlib Require Import Sorted Permutation.
Import ListNotations.

Local Open Scope string_scope.
Local Open Scope list_scope.

(* ================================================================= *)
(** ** JavaScript values *)

(** The identity of a JavaScript object.  [===] on two objects compares
    identities, never contents. *)
Definition ObjectId := nat.

(** [CppBuildConfiguration]: the three fields of the interface, and the
    identity [oid] of the object that carries them.  [commands] is an
    optional object; only its identity is ever inspected. *)
Record CppBuildConfiguration : Type := {
  oid : ObjectId;
  name : string;
  directory : string;
  commands : option ObjectId
}.

(** [a.commands === b.commands]: both [undefined], or the same object. *)
Definition commands_strict_eq (x y : option ObjectId) : bool :=
  match x, y with
  | None, None => true
  | Some i, Some j => Nat.eqb i j
  | _, _ => false
  end.

(** The exported function [equals]. *)
Definition equals (a b : CppBuildConfiguration) : bool :=
  String.eqb (name a) (name b) &&
  String.eqb (directory a) (directory b) &&
  commands_strict_eq (commands a) (commands b).

(** Errors thrown by the runtime. *)
Inductive JsError : Type :=
| TypeError (message : string).

(** A computation that returns or throws. *)
Inductive result (A : Type) : Type :=
| Ok (a : A)
| Throw (e : JsError).
Arguments Ok {A} a.
Arguments Throw {A} e.

Definition bind {A B : Type} (r : result A) (k : A -> result B) : result B :=
  match r with
  | Ok a => k a
  | Throw e => Throw e
  end.

Notation "x <- e ;; k" := (bind e (fun x => k))
  (at level 61, e at next level, right associativity).

(* ================================================================= *)
(** ** The built-in [Map], with string keys

    A [Map] iterates in insertion order, and [set] on a key that is
    already there keeps the key's place: an association list whose keys
    are pairwise distinct. *)

Module JsMap.
Section WithValues.
Context {V : Type}.

Definition t : Type := list (string * V).

(** [new Map()]. *)
Definition empty : t := [].

(** The value stored under [k], if the key is there. *)
Fixpoint lookup (k : string) (m : t) : option V :=
  match m with
  | [] => None
  | (k', v) :: m' => if String.eqb k' k then Some v else lookup k m'
  end.

(** [m.has(k)]. *)
Definition has (k : string) (m : t) : bool :=
  match lookup k m with Some _ => true | None => false end.

(** [m.set(k, v)]. *)
Fixpoint set (k : string) (v : V) (m : t) : t :=
  match m with
  | [] => [(k, v)]
  | (k', v') :: m' =>
      if String.eqb k' k then (k', v) :: m' else (k', v') :: set k v m'
  end.

(** [[...m.entries()]]. *)
Definition entries (m : t) : list (string * V) := m.

(** [[...m.keys()]]. *)
Definition keys (m : t) : list string := List.map fst m.

(** [new Map(iterable)]: the entries are [set] one after the other. *)
Definition of_entries (l : list (string * V)) : t :=
  fold_left (fun m e => set (fst e) (snd e) m) l empty.

(** What every [Map] satisfies: no key twice. *)
Definition wf (m : t) : Prop := NoDup (keys m).
End WithValues.
Arguments t : clear implicits.
End JsMap.

(** [m.get(k)] on a [Map<string, T | undefined>]: [undefined] both for
    a key that is missing and for a key that holds [undefined]. *)
Definition map_get {T : Type} (k : string) (m : JsMap.t (option T)) : option T :=
  match JsMap.lookup k m with
  | Some v => v
  | None => None
  end.

(** [Array.prototype.sort(compareFn)]: the stable sort of the array under
    [compareFn]; an element moves in front of another one only when
    [compareFn] puts it there ([<= 0]), and equal elements keep their
    order. *)
Section ArraySort.
Context {A : Type}.
Variable compareFn : A -> A -> Z.

Fixpoint sort_insert (x : A) (l : list A) : list A :=
  match l with
  | [] => [x]
  | y :: l' =>
      if (compareFn x y <=? 0)%Z then x :: y :: l' else y :: sort_insert x l'
  end.

Fixpoint array_sort (l : list A) : list A :=
  match l with
  | [] => []
  | x :: l' => sort_insert x (array_sort l')
  end.
End ArraySort.

(* ================================================================= *)
(** ** The collaborators injected into the manager *)

(** [SavedActiveBuildConfigurations]. *)
Record SavedActiveBuildConfigurations : Type := {
  configs : list (string * option CppBuildConfiguration)
}.

(** Modelled from the spec: [StorageService] (of [@theia/core], not part
    of this package) is a durable key-value store, [get(key)] giving back
    the value last [set] under the key.  [setData] returns a promise the
    manager does not await: the write is issued ([pending]) and becomes
    durable ([stored]) when the service completes it.  No read observes a
    stale value once [setData] has returned: [getData] gives the last write
    issued under the key, completed or not. *)
Record StorageService : Type := {
  stored : JsMap.t SavedActiveBuildConfigurations;
  pending : list (string * SavedActiveBuildConfigurations)
}.

Definition setData (key : string) (data : SavedActiveBuildConfigurations)
    (s : StorageService) : StorageService :=
  {| stored := stored s; pending := pending s ++ [(key, data)] |}.

Definition getData (key : string) (s : StorageService)
    : option SavedActiveBuildConfigurations :=
  match JsMap.lookup key (rev (pending s)) with
  | Some data => Some data
  | None => JsMap.lookup key (stored s)
  end.

(** The service completes the oldest write it was given. *)
Definition complete_write (s : StorageService) : StorageService :=
  match pending s with
  | [] => s
  | (key, data) :: rest =>
      {| stored := JsMap.set key data (stored s); pending := rest |}
  end.

(** [FileStat], of which the manager reads [uri]. *)
Record FileStat : Type := { uri : string }.

(** What the manager reads from its environment: the workspace service's
    roots, the preference proxy's value of ['cpp.buildConfigurations']
    (unscoped, and scoped to a resource), and the host's collation behind
    [String.prototype.localeCompare]. *)
Record Env : Type := {
  tryGetRoots : list FileStat;
  preference : option (list CppBuildConfiguration);
  preference_for : string -> option (list CppBuildConfiguration);
  localeCompare : string -> string -> Z
}.

(** Truthiness of an optional string argument: [undefined] and [''] are
    falsy. *)
Definition truthy (root : option string) : option string :=
  match root with
  | Some r => if String.eqb r "" then None else Some r
  | None => None
  end.

(* ================================================================= *)
(** ** The manager *)

Module CppBuildConfigurationManagerImpl.

(** The mutable fields of the instance.  An emitter is represented by
    the events it has fired, oldest first. *)
Record state : Type := {
  activeConfigs : JsMap.t (option CppBuildConfiguration);
  storageService : StorageService;
  activeConfigChangeEmitter : list (option CppBuildConfiguration);
  activeConfigChange2Emitter : list (JsMap.t CppBuildConfiguration)
}.

Definition ACTIVE_BUILD_CONFIGURATIONS_MAP_STORAGE_KEY : string :=
  "cpp.active-build-configurations-map".

(** The instance as constructed, over a given storage. *)
Definition create (storage : StorageService) : state :=
  {| activeConfigs := JsMap.empty;
     storageService := storage;
     activeConfigChangeEmitter := [];
     activeConfigChange2Emitter := [] |}.

Definition with_activeConfigs (m : JsMap.t (option CppBuildConfiguration))
    (st : state) : state :=
  {| activeConfigs := m;
     storageService := storageService st;
     activeConfigChangeEmitter := activeConfigChangeEmitter st;
     activeConfigChange2Emitter := activeConfigChange2Emitter st |}.

Definition with_storageService (s : StorageService) (st : state) : state :=
  {| activeConfigs := activeConfigs st;
     storageService := s;
     activeConfigChangeEmitter := activeConfigChangeEmitter st;
     activeConfigChange2Emitter := activeConfigChange2Emitter st |}.

(** [this.activeConfigChangeEmitter.fire(config)]. *)
Definition fire (config : option CppBuildConfiguration) (st : state) : state :=
  {| activeConfigs := activeConfigs st;
     storageService := storageService st;
     activeConfigChangeEmitter := activeConfigChangeEmitter st ++ [config];
     activeConfigChange2Emitter := activeConfigChange2Emitter st |}.

(** [this.activeConfigChange2Emitter.fire(activeConfigurations)]. *)
Definition fire2 (activeConfigurations : JsMap.t CppBuildConfiguration)
    (st : state) : state :=
  {| activeConfigs := activeConfigs st;
     storageService := storageService st;
     activeConfigChangeEmitter := activeConfigChangeEmitter st;
     activeConfigChange2Emitter :=
       activeConfigChange2Emitter st ++ [activeConfigurations] |}.

(** The storage service completes [n] of the writes it was given. *)
Fixpoint writes_complete (n : nat) (st : state) : state :=
  match n with
  | O => st
  | S n' =>
      writes_complete n'
        (with_storageService (complete_write (storageService st)) st)
  end.

Definition loadActiveConfiguration (st : state) : state :=
  match getData ACTIVE_BUILD_CONFIGURATIONS_MAP_STORAGE_KEY (storageService st) with
  | Some savedConfig =>
      with_activeConfigs (JsMap.of_entries (configs savedConfig)) st
  | None => st
  end.

Definition saveActiveConfiguration
    (configs : JsMap.t (option CppBuildConfiguration)) (st : state) : state :=
  with_storageService
    (setData ACTIVE_BUILD_CONFIGURATIONS_MAP_STORAGE_KEY
       {| configs := JsMap.entries configs |} (storageService st))
    st.

(** The method [equals]. *)
Definition equals (a b : CppBuildConfiguration) : bool :=
  String.eqb (name a) (name b) && String.eqb (directory a) (directory b).

(** [root ? root : this.workspaceService.tryGetRoots()[0].uri]: reading
    [uri] of [undefined], the first element of an empty array, throws. *)
Definition workspaceRoot (env : Env) (root : option string) : result string :=
  match truthy root with
  | Some r => Ok r
  | None =>
      match tryGetRoots env with
      | first :: _ => Ok (uri first)
      | [] => Throw (TypeError "Cannot read property 'uri' of undefined")
      end
  end.

Definition getActiveConfig (env : Env) (root : option string) (st : state)
    : result (option CppBuildConfiguration) :=
  workspaceRoot <- workspaceRoot env root ;;
  Ok (map_get workspaceRoot (activeConfigs st)).

Definition getAllActiveConfigs (st : state)
    : JsMap.t (option CppBuildConfiguration) :=
  activeConfigs st.

(** The loop of [setActiveConfig]: the entries that hold a
    configuration, [set] in iteration order into a new map. *)
Definition definedConfigs (m : JsMap.t (option CppBuildConfiguration))
    : JsMap.t CppBuildConfiguration :=
  fold_left
    (fun activeConfigurations entry =>
       match snd entry with
       | Some cppConfig => JsMap.set (fst entry) cppConfig activeConfigurations
       | None => activeConfigurations
       end)
    (JsMap.entries m) JsMap.empty.

Definition setActiveConfig (env : Env) (config : option CppBuildConfiguration)
    (root : option string) (st : state) : result state :=
  workspaceRoot <- workspaceRoot env root ;;
  let st := with_activeConfigs (JsMap.set workspaceRoot config (activeConfigs st)) st in
  let st := saveActiveConfiguration (activeConfigs st) st in
  let activeConfigurations := definedConfigs (getAllActiveConfigs st) in
  let st := fire2 activeConfigurations st in
  Ok (fire config st).

Definition getConfigs (env : Env) (root : option string)
    : list CppBuildConfiguration :=
  match truthy root with
  | Some r =>
      match preference_for env r with Some l => l | None => [] end
  | None =>
      match preference env with Some l => l | None => [] end
  end.

Definition getValidConfigs (env : Env) (root : option string)
    : list CppBuildConfiguration :=
  array_sort (fun a b => localeCompare env (name a) (name b))
    (filter (fun a => negb (String.eqb (name a) "") &&
                      negb (String.eqb (directory a) ""))
       (getConfigs env root)).

Definition handlePreferencesUpdate (env : Env) (st : state) : result state :=
  active <- getActiveConfig env None st ;;
  let valid :=
    match active with
    | Some active => existsb (fun a => equals a active) (getValidConfigs env None)
    | None => false
    end in
  if negb valid then setActiveConfig env None None st else Ok st.

End CppBuildConfigurationManagerImpl.

Module Impl := CppBuildConfigurationManagerImpl.

(** The states a manager goes through: constructed over some storage,
    then any sequence of loads, calls of [setActiveConfig], preference
    changes and completed writes that return, each in the environment of
    its time. *)
Inductive reachable : Impl.state -> Prop :=
| reachable_create storage :
    reachable (Impl.create storage)
| reachable_load st :
    reachable st -> reachable (Impl.loadActiveConfiguration st)
| reachable_set env config root st st' :
    reachable st ->
    Impl.setActiveConfig env config root st = Ok st' ->
    reachable st'
| reachable_update env st st' :
    reachable st ->
    Impl.handlePreferencesUpdate env st = Ok st' ->
    reachable st'
| reachable_write n st :
    reachable st -> reachable (Impl.writes_complete n st).

(* ================================================================= *)
(** ** The type guard [isCppBuildConfiguration]

    Its argument is of type [any].  Of a value, the guard reads the
    properties [name] and [directory], which no prototype of a primitive
    defines. *)

#[local] Set Warnings "-register-all".
Inductive JsValue : Type :=
| JsUndefined
| JsNull
| JsBoolean (b : bool)
| JsNumber (n : Z)
| JsString (s : string)
| JsObject (id : ObjectId) (properties : list (string * JsValue)).

(** The properties of an object, own or inherited, by name. *)
Fixpoint property (p : string) (properties : list (string * JsValue)) : JsValue :=
  match properties with
  | [] => JsUndefined
  | (q, v) :: rest => if String.eqb q p then v else property p rest
  end.

(** [arg.p], for [p] one of [name] and [directory]: a [TypeError] on
    [undefined] and [null], [undefined] on the other primitives. *)
Definition get_property (arg : JsValue) (p : string) : result JsValue :=
  match arg with
  | JsUndefined => Throw (TypeError "Cannot read property of undefined")
  | JsNull => Throw (TypeError "Cannot read property of null")
  | JsObject _ properties => Ok (property p properties)
  | JsBoolean _ | JsNumber _ | JsString _ => Ok JsUndefined
  end.

(** [v !== undefined]. *)
Definition not_undefined (v : JsValue) : bool :=
  match v with
  | JsUndefined => false
  | _ => true
  end.

Definition isCppBuildConfiguration (arg : JsValue) : result bool :=
  n <- get_property arg "name" ;;
  if not_undefined n
  then d <- get_property arg "directory" ;; Ok (not_undefined d)
  else Ok false.

(** A [CppBuildConfiguration] as the value it is at run time. *)
Definition to_js (c : CppBuildConfiguration) : JsValue :=
  JsObject (oid c)
    (("name", JsString (name c)) ::
     ("directory", JsString (directory c)) ::
     match commands c with
     | Some id => [("commands", JsObject id [])]
     | None => []
     end).

(* ================================================================= *)
(** ** Callers and the life of an instance *)

(** A caller's calls of [setActiveConfig], one after the other; the first
    one that throws ends the sequence. *)
Fixpoint setActiveConfig_calls (env : Env)
    (calls : list (option CppBuildConfiguration * option string))
    (st : Impl.state) : result Impl.state :=
  match calls with
  | [] => Ok st
  | (config, root) :: rest =>
      st' <- Impl.setActiveConfig env config root st ;;
      setActiveConfig_calls env rest st'
  end.

(** How far [init] has come: it awaits [cppPreferences.ready]; then it has
    called [loadActiveConfiguration], which awaits the answer of the
    storage service, and has subscribed to [onPreferenceChanged]; then the
    map is loaded and [ready] is resolved. *)
Inductive InitStage : Type :=
| AwaitingPreferences
| AwaitingStorage
| Ready.

(** An instance: its fields, and the stage of its [init]. *)
Record Instance : Type := {
  this : Impl.state;
  stage : InitStage
}.

(** Construction, with [init] run up to its first [await]. *)
Definition construct (storage : StorageService) : Instance :=
  {| this := Impl.create storage; stage := AwaitingPreferences |}.

(** What the host delivers to an instance, one at a time. *)
Inductive Event : Type :=
| PreferencesReady   (* [cppPreferences.ready] is resolved *)
| StorageAnswers     (* the promise of [getData] is resolved *)
| PreferenceChanged  (* [cppPreferences.onPreferenceChanged] fires *)
| WriteCompleted     (* the storage service completes a write *)
| SetActiveConfig (config : option CppBuildConfiguration) (root : option string).

(** One event.  The storage service answers [getData] with what was
    last written when it answers; the listener of [onPreferenceChanged] exists from the
    moment [init] has subscribed. *)
Definition deliver (env : Env) (e : Event) (i : Instance) : result Instance :=
  match e with
  | PreferencesReady =>
      match stage i with
      | AwaitingPreferences => Ok {| this := this i; stage := AwaitingStorage |}
      | _ => Ok i
      end
  | StorageAnswers =>
      match stage i with
      | AwaitingStorage =>
          Ok {| this := Impl.loadActiveConfiguration (this i); stage := Ready |}
      | _ => Ok i
      end
  | PreferenceChanged =>
      match stage i with
      | AwaitingPreferences => Ok i
      | _ =>
          st' <- Impl.handlePreferencesUpdate env (this i) ;;
          Ok {| this := st'; stage := stage i |}
      end
  | WriteCompleted =>
      Ok {| this := Impl.writes_complete 1 (this i); stage := stage i |}
  | SetActiveConfig config root =>
      st' <- Impl.setActiveConfig env config root (this i) ;;
      Ok {| this := st'; stage := stage i |}
  end.

Fixpoint deliver_all (env : Env) (events : list Event) (i : Instance)
    : result Instance :=
  match events with
  | [] => Ok i
  | e :: rest => i' <- deliver env e i ;; deliver_all env rest i'
  end.

(** The storage service once it has completed every write it was given. *)
Definition settled (st : Impl.state) : StorageService :=
  Impl.storageService
    (Impl.writes_complete (length (pending (Impl.storageService st))) st).

(* ================================================================= *)
(** ** Sample data for the concrete runs *)

(** Comparison by code units, a collation a host may use. *)
Definition ordinal_compare (a b : string) : Z :=
  match String.compare a b with
  | Lt => (-1)%Z
  | Eq => 0%Z
  | Gt => 1%Z
  end.

Definition cfg_debug : CppBuildConfiguration :=
  {| oid := 1; name := "debug"; directory := "/d"; commands := Some 11 |}.

Definition cfg_release : CppBuildConfiguration :=
  {| oid := 2; name := "release"; directory := "/r"; commands := None |}.

(** [cfg_debug] with another [commands] object. *)
Definition cfg_debug' : CppBuildConfiguration :=
  {| oid := 3; name := "debug"; directory := "/d"; commands := Some 12 |}.

Definition cfg_blank_name : CppBuildConfiguration :=
  {| oid := 4; name := ""; directory := "/e"; commands := Some 13 |}.

Definition cfg_blank_directory : CppBuildConfiguration :=
  {| oid := 5; name := "asan"; directory := ""; commands := None |}.

Definition root_A : string := "file:///workspace/a".
Definition root_B : string := "file:///workspace/b".

(** A workspace with the roots [A] and [B], whose preferences list [l]. *)
Definition env_AB (l : list CppBuildConfiguration) : Env :=
  {| tryGetRoots := [ {| uri := root_A |}; {| uri := root_B |} ];
     preference := Some l;
     preference_for := fun _ => Some l;
     localeCompare := ordinal_compare |}.

(** No workspace opened. *)
Definition env_no_roots : Env :=
  {| tryGetRoots := [];
     preference := None;
     preference_for := fun _ => None;
     localeCompare := ordinal_compare |}.

Definition empty_storage : StorageService :=
  {| stored := JsMap.empty; pending := [] |}.

(** A fresh manager. *)
Definition fresh : Impl.state := Impl.create empty_storage.

(** A manager in which [cfg_debug] is active at [A] and [cfg_release]
    at [B]. *)
Definition debug_at_A : Impl.state :=
  Impl.with_activeConfigs
    [(root_A, Some cfg_debug); (root_B, Some cfg_release)] fresh.

(** A storage that holds a snapshot: [cfg_release] at [A], [cfg_debug]
    at [B]. *)
Definition storage_with_snapshot : StorageService :=
  {| stored :=
       [(Impl.ACTIVE_BUILD_CONFIGURATIONS_MAP_STORAGE_KEY,
         {| configs := [(root_A, Some cfg_release); (root_B, Some cfg_debug)] |})];
     pending := [] |}.

(* ================================================================= *)
(** ** Facts about [Map] *)

Section JsMapFacts.
Context {V : Type}.
Implicit Types (m : JsMap.t V) (k : string) (v : V).

Lemma lookup_set_same k v m : JsMap.lookup k (JsMap.set k v m) = Some v.
Proof.
  induction m as [|[k' v'] m IH]; simpl.
  - now rewrite String.eqb_refl.
  - destruct (String.eqb k' k) eqn:E; simpl; now rewrite E.
Qed.

Lemma lookup_set_other k k' v m :
  k <> k' -> JsMap.lookup k' (JsMap.set k v m) = JsMap.lookup k' m.
Proof.
  intros Hne. induction m as [|[k0 v0] m IH]; simpl.
  - apply String.eqb_neq in Hne. now rewrite Hne.
  - destruct (String.eqb k0 k) eqn:E; simpl.
    + apply String.eqb_eq in E. subst k0.
      apply String.eqb_neq in Hne. now rewrite Hne.
    + now rewrite IH.
Qed.

Lemma set_set_same k v m : JsMap.set k v (JsMap.set k v m) = JsMap.set k v m.
Proof.
  induction m as [|[k' v'] m IH]; simpl.
  - now rewrite String.eqb_refl.
  - destruct (String.eqb k' k) eqn:E; simpl; rewrite E; [reflexivity|].
    now rewrite IH.
Qed.

Lemma keys_set_in k v m :
  In k (JsMap.keys m) -> JsMap.keys (JsMap.set k v m) = JsMap.keys m.
Proof.
  induction m as [|[k' v'] m IH]; simpl; [tauto|].
  intros [->|Hin].
  - now rewrite String.eqb_refl.
  - destruct (String.eqb k' k); simpl; [reflexivity|]. now rewrite IH.
Qed.

Lemma set_fresh k v m :
  ~ In k (JsMap.keys m) -> JsMap.set k v m = m ++ [(k, v)].
Proof.
  induction m as [|[k' v'] m IH]; simpl; [reflexivity|].
  intros Hn. destruct (String.eqb_spec k' k) as [->|_]; [tauto|].
  rewrite IH; tauto.
Qed.

Lemma lookup_None_iff k m : JsMap.lookup k m = None <-> ~ In k (JsMap.keys m).
Proof.
  induction m as [|[k' v'] m IH]; simpl; [tauto|].
  destruct (String.eqb_spec k' k) as [->|Hne].
  - split; [discriminate|tauto].
  - rewrite IH. tauto.
Qed.

Lemma has_true_iff k m : JsMap.has k m = true <-> In k (JsMap.keys m).
Proof.
  unfold JsMap.has. destruct (JsMap.lookup k m) eqn:E.
  - split; [intros _|reflexivity].
    destruct (in_dec string_dec k (JsMap.keys m)) as [H|H]; [exact H|].
    apply lookup_None_iff in H. congruence.
  - apply lookup_None_iff in E. split; [discriminate|tauto].
Qed.

Lemma NoDup_snoc (l : list string) k : NoDup l -> ~ In k l -> NoDup (l ++ [k]).
Proof.
  induction 1 as [|x l Hx Hl IH]; simpl; intros Hk.
  - constructor; [tauto|constructor].
  - constructor.
    + rewrite in_app_iff. simpl. intros [H|[H|[]]]; [tauto|]. subst. tauto.
    + apply IH. tauto.
Qed.

(** [set] keeps the keys pairwise distinct. *)
Lemma wf_set k v m : JsMap.wf m -> JsMap.wf (JsMap.set k v m).
Proof.
  unfold JsMap.wf. intros Hwf.
  destruct (in_dec string_dec k (JsMap.keys m)) as [Hin|Hnin].
  - now rewrite keys_set_in.
  - rewrite set_fresh by exact Hnin. unfold JsMap.keys in *.
    rewrite map_app. simpl. now apply NoDup_snoc.
Qed.

Lemma wf_empty : JsMap.wf (@JsMap.empty V).
Proof. constructor. Qed.

Lemma wf_fold_set (l : list (string * V)) m :
  JsMap.wf m ->
  JsMap.wf (fold_left (fun m e => JsMap.set (fst e) (snd e) m) l m).
Proof.
  revert m. induction l as [|e l IH]; simpl; intros m Hwf; [exact Hwf|].
  apply IH, wf_set, Hwf.
Qed.

Lemma wf_of_entries (l : list (string * V)) : JsMap.wf (JsMap.of_entries l).
Proof. apply wf_fold_set, wf_empty. Qed.

(** Setting, one after the other, entries with fresh and pairwise
    distinct keys appends them. *)
Lemma fold_set_fresh (l : list (string * V)) m :
  NoDup (JsMap.keys m ++ JsMap.keys l) ->
  fold_left (fun m e => JsMap.set (fst e) (snd e) m) l m = m ++ l.
Proof.
  revert m. induction l as [|[k v] l IH]; simpl; intros m Hnd.
  - now rewrite app_nil_r.
  - assert (Hk : ~ In k (JsMap.keys m)).
    { apply NoDup_remove_2 in Hnd. intros Hin. apply Hnd.
      apply in_or_app. now left. }
    rewrite set_fresh by exact Hk. rewrite IH.
    + now rewrite <- app_assoc.
    + unfold JsMap.keys in *. rewrite map_app. simpl.
      now rewrite <- app_assoc.
Qed.

(** [new Map([...m.entries()])] is [m], entries and order. *)
Lemma of_entries_entries m :
  JsMap.wf m -> JsMap.of_entries (JsMap.entries m) = m.
Proof.
  intros Hwf. unfold JsMap.of_entries, JsMap.entries.
  now rewrite fold_set_fresh.
Qed.

End JsMapFacts.

Lemma lookup_app {V} k (l1 l2 : JsMap.t V) :
  JsMap.lookup k (l1 ++ l2) =
  match JsMap.lookup k l1 with
  | Some v => Some v
  | None => JsMap.lookup k l2
  end.
Proof.
  induction l1 as [|[k' v'] l1 IH]; simpl; [reflexivity|].
  now destruct (String.eqb k' k).
Qed.

Lemma lookup_set {V} k k' (v : V) m :
  JsMap.lookup k (JsMap.set k' v m) =
  if String.eqb k' k then Some v else JsMap.lookup k m.
Proof.
  destruct (String.eqb_spec k' k) as [->|Hne].
  - apply lookup_set_same.
  - now apply lookup_set_other.
Qed.

(** A value that is stored already is kept by storing it again. *)
Lemma set_same_value {V} k (v : V) m :
  JsMap.lookup k m = Some v -> JsMap.set k v m = m.
Proof.
  induction m as [|[k' v'] m IH]; simpl; [discriminate|].
  destruct (String.eqb k' k); [now intros [= ->]|].
  intros H. now rewrite IH.
Qed.

(* ================================================================= *)
(** ** Facts about the storage service *)

(** A read right after a write gives what was written. *)
Lemma getData_setData key data s : getData key (setData key data s) = Some data.
Proof.
  unfold getData, setData. simpl. rewrite rev_app_distr. simpl.
  now rewrite String.eqb_refl.
Qed.

(** Completing a write changes no read. *)
Lemma getData_complete_write key s : getData key (complete_write s) = getData key s.
Proof.
  unfold getData, complete_write.
  destruct (pending s) as [|[k data] rest] eqn:Hp; [now rewrite Hp|]. simpl.
  rewrite lookup_app, lookup_set. simpl.
  destruct (JsMap.lookup key (rev rest)); [reflexivity|].
  now destruct (String.eqb k key).
Qed.

Lemma getData_writes_complete key n st :
  getData key (Impl.storageService (Impl.writes_complete n st)) =
  getData key (Impl.storageService st).
Proof.
  revert st. induction n as [|n IH]; intros st; simpl; [reflexivity|].
  rewrite IH. simpl. apply getData_complete_write.
Qed.

(* ================================================================= *)
(** ** Facts about the manager *)

Lemma workspaceRoot_given env r :
  r <> "" -> Impl.workspaceRoot env (Some r) = Ok r.
Proof.
  intros Hr. unfold Impl.workspaceRoot, truthy.
  apply String.eqb_neq in Hr. now rewrite Hr.
Qed.

(** An empty string is falsy: the root is resolved as if it were omitted. *)
Lemma workspaceRoot_empty_string env :
  Impl.workspaceRoot env (Some "") = Impl.workspaceRoot env None.
Proof. reflexivity. Qed.

Lemma workspaceRoot_default env first rest :
  tryGetRoots env = first :: rest ->
  Impl.workspaceRoot env None = Ok (uri first).
Proof. intros H. unfold Impl.workspaceRoot. simpl. now rewrite H. Qed.

(** What a call of [setActiveConfig] that resolves its root to [r]
    leaves behind. *)
Lemma setActiveConfig_resolved env config root st r :
  Impl.workspaceRoot env root = Ok r ->
  Impl.setActiveConfig env config root st =
    Ok {| Impl.activeConfigs := JsMap.set r config (Impl.activeConfigs st);
          Impl.storageService :=
            setData Impl.ACTIVE_BUILD_CONFIGURATIONS_MAP_STORAGE_KEY
              {| configs := JsMap.entries (JsMap.set r config (Impl.activeConfigs st)) |}
              (Impl.storageService st);
          Impl.activeConfigChangeEmitter :=
            Impl.activeConfigChangeEmitter st ++ [config];
          Impl.activeConfigChange2Emitter :=
            Impl.activeConfigChange2Emitter st ++
              [Impl.definedConfigs (JsMap.set r config (Impl.activeConfigs st))] |}.
Proof. intros H. unfold Impl.setActiveConfig. rewrite H. reflexivity. Qed.

(** A call of [setActiveConfig] returns exactly when its root resolves. *)
Lemma setActiveConfig_returns env config root st st' :
  Impl.setActiveConfig env config root st = Ok st' ->
  exists r, Impl.workspaceRoot env root = Ok r.
Proof.
  unfold Impl.setActiveConfig.
  destruct (Impl.workspaceRoot env root) as [r|e]; simpl; [eauto|discriminate].
Qed.

Lemma getActiveConfig_resolved env root st r :
  Impl.workspaceRoot env root = Ok r ->
  Impl.getActiveConfig env root st = Ok (map_get r (Impl.activeConfigs st)).
Proof. intros H. unfold Impl.getActiveConfig. now rewrite H. Qed.

(** Completed writes touch the storage service only. *)
Lemma writes_complete_frame n st :
  Impl.activeConfigs (Impl.writes_complete n st) = Impl.activeConfigs st /\
  Impl.activeConfigChangeEmitter (Impl.writes_complete n st) =
    Impl.activeConfigChangeEmitter st /\
  Impl.activeConfigChange2Emitter (Impl.writes_complete n st) =
    Impl.activeConfigChange2Emitter st.
Proof.
  revert st. induction n as [|n IH]; intros st; simpl; [auto|].
  destruct (IH (Impl.with_storageService
                  (complete_write (Impl.storageService st)) st)) as (H1 & H2 & H3).
  now rewrite H1, H2, H3.
Qed.

Lemma map_get_set_same {T} k (v : option T) m :
  map_get k (JsMap.set k v m) = v.
Proof. unfold map_get. now rewrite lookup_set_same. Qed.

Lemma map_get_set_other {T} k k' (v : option T) m :
  k <> k' -> map_get k' (JsMap.set k v m) = map_get k' m.
Proof. intros H. unfold map_get. now rewrite lookup_set_other. Qed.

(** The loop of [setActiveConfig], started from any map. *)
Lemma lookup_fold_defined (l : list (string * option CppBuildConfiguration))
    (acc : JsMap.t CppBuildConfiguration) k :
  NoDup (JsMap.keys l) ->
  JsMap.lookup k
    (fold_left
       (fun activeConfigurations entry =>
          match snd entry with
          | Some cppConfig => JsMap.set (fst entry) cppConfig activeConfigurations
          | None => activeConfigurations
          end) l acc) =
  match JsMap.lookup k l with
  | Some (Some c) => Some c
  | _ => JsMap.lookup k acc
  end.
Proof.
  revert acc. induction l as [|[k1 x] l IH]; intros acc Hnd; simpl; [reflexivity|].
  inversion Hnd as [|? ? Hk1 Hl]; subst.
  rewrite IH by exact Hl.
  destruct (String.eqb_spec k1 k) as [->|Hne].
  - apply lookup_None_iff in Hk1. rewrite Hk1.
    destruct x as [c|]; [apply lookup_set_same|reflexivity].
  - destruct (JsMap.lookup k l) as [[c|]|]; try reflexivity;
      destruct x as [c'|]; try reflexivity; now apply lookup_set_other.
Qed.

(** The map handed to the multi-root emitter holds [k] exactly when a
    configuration is active at [k], and holds that configuration. *)
Lemma lookup_definedConfigs m k :
  JsMap.wf m -> JsMap.lookup k (Impl.definedConfigs m) = map_get k m.
Proof.
  intros Hwf. unfold Impl.definedConfigs, JsMap.entries.
  rewrite lookup_fold_defined by exact Hwf. unfold map_get. simpl.
  now destruct (JsMap.lookup k m) as [[c|]|].
Qed.

(** The keys of the in-memory map stay pairwise distinct. *)
Lemma setActiveConfig_wf env config root st st' :
  JsMap.wf (Impl.activeConfigs st) ->
  Impl.setActiveConfig env config root st = Ok st' ->
  JsMap.wf (Impl.activeConfigs st').
Proof.
  intros Hwf H. destruct (setActiveConfig_returns _ _ _ _ _ H) as [r Hr].
  rewrite (setActiveConfig_resolved _ _ _ _ _ Hr) in H.
  injection H as <-. simpl. now apply wf_set.
Qed.

Lemma loadActiveConfiguration_wf st :
  JsMap.wf (Impl.activeConfigs st) ->
  JsMap.wf (Impl.activeConfigs (Impl.loadActiveConfiguration st)).
Proof.
  intros Hwf. unfold Impl.loadActiveConfiguration.
  destruct (getData _ _); simpl; [apply wf_of_entries|exact Hwf].
Qed.

Lemma handlePreferencesUpdate_wf env st st' :
  JsMap.wf (Impl.activeConfigs st) ->
  Impl.handlePreferencesUpdate env st = Ok st' ->
  JsMap.wf (Impl.activeConfigs st').
Proof.
  intros Hwf. unfold Impl.handlePreferencesUpdate.
  destruct (Impl.getActiveConfig env None st) as [active|e]; simpl; [|discriminate].
  match goal with |- context [negb ?b] => destruct b end; simpl.
  - now intros [= <-].
  - now apply setActiveConfig_wf.
Qed.

(** Every state the manager goes through holds a proper [Map]. *)
Lemma reachable_wf st : reachable st -> JsMap.wf (Impl.activeConfigs st).
Proof.
  induction 1 as [storage|st _ IH|env config root st st' _ IH Hset
                 |env st st' _ IH Hupd|n st _ IH].
  - apply wf_empty.
  - now apply loadActiveConfiguration_wf.
  - exact (setActiveConfig_wf _ _ _ _ _ IH Hset).
  - exact (handlePreferencesUpdate_wf _ _ _ IH Hupd).
  - destruct (writes_complete_frame n st) as (-> & _). exact IH.
Qed.

(* ================================================================= *)
(** ** Concrete runs *)

(** Of a valid and a nameless configuration, the valid one is kept. *)
Example getValidConfigs_drops_blank_name :
  Impl.getValidConfigs (env_AB [cfg_debug; cfg_blank_name]) None = [cfg_debug].
Proof. reflexivity. Qed.

(** [X] set at [A], then [Y] at [B]: the map, and the last map fired. *)
Example setActiveConfig_two_roots :
  (st1 <- Impl.setActiveConfig (env_AB []) (Some cfg_debug) (Some root_A) fresh ;;
   st2 <- Impl.setActiveConfig (env_AB []) (Some cfg_release) (Some root_B) st1 ;;
   Ok (Impl.getAllActiveConfigs st2, last (Impl.activeConfigChange2Emitter st2) []))
  = Ok ([(root_A, Some cfg_debug); (root_B, Some cfg_release)],
        [(root_A, cfg_debug); (root_B, cfg_release)]).
Proof. reflexivity. Qed.

(** A root that was never set reads [undefined]. *)
Example getActiveConfig_fresh r :
  r <> "" -> Impl.getActiveConfig (env_AB []) (Some r) fresh = Ok None.
Proof.
  intros Hr. now rewrite (getActiveConfig_resolved _ _ _ _ (workspaceRoot_given _ r Hr)).
Qed.

(** A preference change keeps an active configuration that is still
    listed, whatever its [commands]. *)
Example handlePreferencesUpdate_keeps_listed :
  Impl.handlePreferencesUpdate (env_AB [cfg_debug'; cfg_release]) debug_at_A
  = Ok debug_at_A.
Proof. reflexivity. Qed.

(* ================================================================= *)
(** ** The two equalities on build configurations *)

Lemma commands_strict_eq_iff x y : commands_strict_eq x y = true <-> x = y.
Proof.
  destruct x as [i|], y as [j|]; simpl; try (split; congruence).
  rewrite Nat.eqb_eq. split; congruence.
Qed.

(** C9.  The method [equals], used by the re-validation, holds exactly when
    name and directory match; the exported function [equals] holds exactly
    when, moreover, [commands] is the same reference.  So the exported
    equality implies the method's, and two configurations that differ in
    [commands] only are equal for the method and not for the function. *)
Theorem equals_method_and_function (a b : CppBuildConfiguration) :
  (Impl.equals a b = true <-> name a = name b /\ directory a = directory b) /\
  (equals a b = true <->
     name a = name b /\ directory a = directory b /\ commands a = commands b) /\
  (equals a b = true -> Impl.equals a b = true) /\
  (name a = name b -> directory a = directory b -> commands a <> commands b ->
     Impl.equals a b = true /\ equals a b = false).
Proof.
  assert (Hm : Impl.equals a b = true <->
               name a = name b /\ directory a = directory b).
  { unfold Impl.equals.
    rewrite andb_true_iff, !String.eqb_eq. tauto. }
  assert (Hf : equals a b = true <->
               name a = name b /\ directory a = directory b /\
               commands a = commands b).
  { unfold equals.
    rewrite !andb_true_iff, !String.eqb_eq, commands_strict_eq_iff. tauto. }
  repeat split; try tauto.
  destruct (equals a b) eqn:E; [|reflexivity].
  exfalso. tauto.
Qed.

(* ================================================================= *)
(** ** Setting and reading the active configuration *)

(** Whatever the root argument, a call that returns has stored [config]
    under the resolved root, and reading with the same argument gives it
    back, however many of the issued writes the storage has completed. *)
Lemma setActiveConfig_stores env config root st st' n r :
  Impl.workspaceRoot env root = Ok r ->
  Impl.setActiveConfig env config root st = Ok st' ->
  Impl.getActiveConfig env root (Impl.writes_complete n st') = Ok config /\
  JsMap.lookup r (Impl.getAllActiveConfigs (Impl.writes_complete n st')) =
    Some config.
Proof.
  intros Hr H. rewrite (setActiveConfig_resolved _ _ _ _ _ Hr) in H.
  injection H as <-.
  rewrite (getActiveConfig_resolved _ _ _ _ Hr). unfold Impl.getAllActiveConfigs.
  destruct (writes_complete_frame n
    {| Impl.activeConfigs := JsMap.set r config (Impl.activeConfigs st);
       Impl.storageService :=
         setData Impl.ACTIVE_BUILD_CONFIGURATIONS_MAP_STORAGE_KEY
           {| configs := JsMap.entries (JsMap.set r config (Impl.activeConfigs st)) |}
           (Impl.storageService st);
       Impl.activeConfigChangeEmitter :=
         Impl.activeConfigChangeEmitter st ++ [config];
       Impl.activeConfigChange2Emitter :=
         Impl.activeConfigChange2Emitter st ++
           [Impl.definedConfigs (JsMap.set r config (Impl.activeConfigs st))] |})
    as (-> & _ & _).
  simpl. now rewrite map_get_set_same, lookup_set_same.
Qed.

(** C1, as stated, fails for the empty string: [root ? root : ...] takes
    [''] for an omitted root, so [setActiveConfig(c, '')] returns with [c]
    stored under the first workspace root, and [getAllActiveConfigs()] has
    nothing under ['']. *)
Lemma setActiveConfig_empty_string_root :
  exists st',
    Impl.setActiveConfig (env_AB []) (Some cfg_debug) (Some "") fresh = Ok st' /\
    map_get "" (Impl.getAllActiveConfigs st') = None /\
    map_get "" (Impl.getAllActiveConfigs st') <> Some cfg_debug /\
    map_get root_A (Impl.getAllActiveConfigs st') = Some cfg_debug.
Proof.
  eexists. split; [reflexivity|]. repeat split. discriminate.
Qed.

(** C1, amended.  For every configuration [c] and non-empty root [r], the
    call [setActiveConfig(c, r)] returns, and from then on
    [getActiveConfig(r)] is [c] itself and [getAllActiveConfigs()] maps [r]
    to [c], whether the storage has completed the write or not. *)
Theorem setActiveConfig_then_getActiveConfig
    env (c : CppBuildConfiguration) (r : string) st (n : nat) :
  r <> "" ->
  exists st',
    Impl.setActiveConfig env (Some c) (Some r) st = Ok st' /\
    Impl.getActiveConfig env (Some r) (Impl.writes_complete n st') = Ok (Some c) /\
    map_get r (Impl.getAllActiveConfigs (Impl.writes_complete n st')) = Some c.
Proof.
  intros Hr. pose proof (workspaceRoot_given env r Hr) as Hres.
  eexists. split; [apply (setActiveConfig_resolved _ _ _ _ _ Hres)|].
  destruct (setActiveConfig_stores env (Some c) (Some r) st _ n r Hres
              (setActiveConfig_resolved _ _ _ _ _ Hres)) as [Hget Hall].
  split; [exact Hget|]. unfold map_get. now rewrite Hall.
Qed.

Lemma setActiveConfig_then_getActiveConfig_run :
  root_B <> "" /\
  exists st',
    Impl.setActiveConfig (env_AB []) (Some cfg_debug) (Some root_B) fresh = Ok st' /\
    Impl.getActiveConfig (env_AB []) (Some root_B) (Impl.writes_complete 0 st') =
      Ok (Some cfg_debug) /\
    map_get root_B (Impl.getAllActiveConfigs (Impl.writes_complete 0 st')) =
      Some cfg_debug.
Proof.
  split; [discriminate|].
  apply (setActiveConfig_then_getActiveConfig (env_AB []) cfg_debug root_B fresh 0).
  discriminate.
Defined.

(** C8, as stated, fails when [r] is the empty string: the call then
    writes the entry of the first workspace root, a root distinct
    from [r]. *)
Lemma setActiveConfig_empty_string_changes_default_root :
  "" <> root_A /\
  exists st',
    Impl.setActiveConfig (env_AB []) (Some cfg_debug) (Some "") fresh = Ok st' /\
    JsMap.lookup root_A (Impl.activeConfigs fresh) = None /\
    JsMap.lookup root_A (Impl.activeConfigs st') = Some (Some cfg_debug) /\
    JsMap.lookup root_A (Impl.activeConfigs st') <>
      JsMap.lookup root_A (Impl.activeConfigs fresh).
Proof.
  split; [discriminate|]. eexists. split; [reflexivity|].
  repeat split. discriminate.
Qed.

(** C8, amended.  For every non-empty root [r] and every root [r'] other
    than [r], [setActiveConfig(c, r)] replaces the entry at [r] and leaves
    the entry at [r'] (a configuration, [undefined], or no entry) as it
    was. *)
Theorem setActiveConfig_other_roots_untouched
    env (config : option CppBuildConfiguration) (r r' : string) st :
  r <> "" -> r' <> r ->
  exists st',
    Impl.setActiveConfig env config (Some r) st = Ok st' /\
    JsMap.lookup r' (Impl.activeConfigs st') =
      JsMap.lookup r' (Impl.activeConfigs st) /\
    JsMap.lookup r (Impl.activeConfigs st') = Some config.
Proof.
  intros Hr Hne. pose proof (workspaceRoot_given env r Hr) as Hres.
  eexists. split; [apply (setActiveConfig_resolved _ _ _ _ _ Hres)|]. simpl.
  split; [apply lookup_set_other; congruence|apply lookup_set_same].
Qed.

Lemma setActiveConfig_other_roots_untouched_run :
  root_A <> "" /\ root_B <> root_A /\
  exists st',
    Impl.setActiveConfig (env_AB []) None (Some root_A) debug_at_A = Ok st' /\
    JsMap.lookup root_B (Impl.activeConfigs st') =
      JsMap.lookup root_B (Impl.activeConfigs debug_at_A) /\
    JsMap.lookup root_A (Impl.activeConfigs st') = Some None.
Proof.
  split; [discriminate|]. split; [discriminate|].
  apply (setActiveConfig_other_roots_untouched (env_AB []) None root_A root_B debug_at_A);
    discriminate.
Defined.

(** C7.  A second [setActiveConfig(c, r)] right after a first one that
    returned returns too and leaves the map as the first call left it;
    each of the two calls fires both emitters once, the second one with
    the very values of the first. *)
Theorem setActiveConfig_twice
    env (config : option CppBuildConfiguration) (root : option string) st st1 :
  Impl.setActiveConfig env config root st = Ok st1 ->
  exists st2,
    Impl.setActiveConfig env config root st1 = Ok st2 /\
    Impl.activeConfigs st2 = Impl.activeConfigs st1 /\
    Impl.activeConfigChangeEmitter st1 =
      Impl.activeConfigChangeEmitter st ++ [config] /\
    Impl.activeConfigChangeEmitter st2 =
      Impl.activeConfigChangeEmitter st ++ [config; config] /\
    Impl.activeConfigChange2Emitter st1 =
      Impl.activeConfigChange2Emitter st ++
        [Impl.definedConfigs (Impl.activeConfigs st1)] /\
    Impl.activeConfigChange2Emitter st2 =
      Impl.activeConfigChange2Emitter st ++
        [Impl.definedConfigs (Impl.activeConfigs st1);
         Impl.definedConfigs (Impl.activeConfigs st1)].
Proof.
  intros H. destruct (setActiveConfig_returns _ _ _ _ _ H) as [r Hr].
  rewrite (setActiveConfig_resolved _ _ _ _ _ Hr) in H. injection H as <-.
  eexists. split; [apply (setActiveConfig_resolved _ _ _ _ _ Hr)|]. simpl.
  rewrite set_set_same, <- !app_assoc. simpl. repeat split.
Qed.

Lemma setActiveConfig_twice_run :
  exists st1 st2,
    Impl.setActiveConfig (env_AB []) (Some cfg_debug) None fresh = Ok st1 /\
    Impl.setActiveConfig (env_AB []) (Some cfg_debug) None st1 = Ok st2 /\
    Impl.activeConfigs st2 = Impl.activeConfigs st1 /\
    Impl.activeConfigChangeEmitter st2 = [Some cfg_debug; Some cfg_debug] /\
    Impl.activeConfigChange2Emitter st2 =
      [[(root_A, cfg_debug)]; [(root_A, cfg_debug)]].
Proof.
  eexists.
  destruct (setActiveConfig_twice (env_AB []) (Some cfg_debug) None fresh _ eq_refl)
    as (st2 & H2 & Hmap & _ & Hl2 & _ & Hm2).
  exists st2. split; [reflexivity|]. split; [exact H2|]. split; [exact Hmap|].
  split; [exact Hl2|exact Hm2].
Defined.

(* ================================================================= *)
(** ** The map handed to the multi-root emitter *)

(** C5, as stated, fails for the empty string: with [X] active at the
    first workspace root, which is what [getActiveConfig('')] reads,
    [setActiveConfig(undefined, '')] clears that root, and
    [getAllActiveConfigs()] has no key ['']. *)
Lemma setActiveConfig_absent_empty_string_no_key :
  Impl.getActiveConfig (env_AB []) (Some "") debug_at_A = Ok (Some cfg_debug) /\
  exists st',
    Impl.setActiveConfig (env_AB []) None (Some "") debug_at_A = Ok st' /\
    JsMap.has "" (Impl.getAllActiveConfigs st') = false /\
    JsMap.lookup "" (Impl.getAllActiveConfigs st') <> Some None.
Proof.
  split; [reflexivity|]. eexists. split; [reflexivity|].
  split; [reflexivity|discriminate].
Qed.

(** C5, amended.  Every call of [setActiveConfig] that returns fires the
    multi-root emitter with one map, which holds a root exactly when a
    configuration is active at it (and holds that configuration).  After
    [setActiveConfig(undefined, A)] for a non-empty root [A], the map fired
    has no entry for [A], while [getAllActiveConfigs()] has the key [A],
    holding [undefined]. *)
Theorem setActiveConfig_fires_defined_configs
    env (config : option CppBuildConfiguration) (root : option string) st st' :
  JsMap.wf (Impl.activeConfigs st) ->
  Impl.setActiveConfig env config root st = Ok st' ->
  exists m,
    Impl.activeConfigChange2Emitter st' = Impl.activeConfigChange2Emitter st ++ [m] /\
    (forall k, JsMap.lookup k m = map_get k (Impl.getAllActiveConfigs st')) /\
    (forall A, A <> "" -> root = Some A -> config = None ->
       JsMap.has A m = false /\
       JsMap.has A (Impl.getAllActiveConfigs st') = true /\
       JsMap.lookup A (Impl.getAllActiveConfigs st') = Some None).
Proof.
  intros Hwf H. destruct (setActiveConfig_returns _ _ _ _ _ H) as [r Hr].
  pose proof (setActiveConfig_wf _ _ _ _ _ Hwf H) as Hwf'.
  rewrite (setActiveConfig_resolved _ _ _ _ _ Hr) in H. injection H as <-.
  simpl in Hwf'. unfold Impl.getAllActiveConfigs. simpl.
  eexists. split; [reflexivity|]. split.
  - intros k. now apply lookup_definedConfigs.
  - intros A HA -> ->. rewrite (workspaceRoot_given env A HA) in Hr.
    injection Hr as <-. unfold JsMap.has.
    rewrite (lookup_definedConfigs _ A Hwf'), map_get_set_same, lookup_set_same.
    repeat split.
Qed.

Lemma setActiveConfig_fires_defined_configs_run :
  JsMap.wf (Impl.activeConfigs debug_at_A) /\
  exists st' m,
    Impl.setActiveConfig (env_AB []) None (Some root_A) debug_at_A = Ok st' /\
    Impl.activeConfigChange2Emitter st' = [m] /\
    JsMap.has root_A m = false /\
    JsMap.lookup root_A (Impl.getAllActiveConfigs st') = Some None.
Proof.
  assert (Hwf : JsMap.wf (Impl.activeConfigs debug_at_A)).
  { repeat constructor; simpl; intuition discriminate. }
  split; [exact Hwf|]. eexists.
  destruct (setActiveConfig_fires_defined_configs
              (env_AB []) None (Some root_A) debug_at_A _ Hwf eq_refl)
    as (m & Hm & _ & HA).
  exists m. split; [reflexivity|]. split; [exact Hm|].
  destruct (HA root_A) as (H1 & _ & H3); try reflexivity; [discriminate|].
  split; [exact H1|exact H3].
Defined.

(* ================================================================= *)
(** ** Re-validation on a preference change *)

Lemma existsb_equals_false (c : CppBuildConfiguration) l :
  (forall a, In a l -> ~ (name a = name c /\ directory a = directory c)) ->
  existsb (fun a => Impl.equals a c) l = false.
Proof.
  intros H. destruct (existsb _ l) eqn:E; [|reflexivity].
  apply existsb_exists in E as (a & Hin & Heq).
  unfold Impl.equals in Heq.
  rewrite andb_true_iff, !String.eqb_eq in Heq.
  now destruct (H a Hin).
Qed.

(** C2.  When [c] is active at the default root and no valid configuration
    of the root-omitted list has the name and directory of [c], the handler
    of a preference change returns with [undefined] stored for the default
    root; the legacy emitter has fired [undefined] and the multi-root
    emitter a map without the default root. *)
Theorem handlePreferencesUpdate_clears_stale
    env st (c : CppBuildConfiguration) :
  JsMap.wf (Impl.activeConfigs st) ->
  Impl.getActiveConfig env None st = Ok (Some c) ->
  (forall a, In a (Impl.getValidConfigs env None) ->
     ~ (name a = name c /\ directory a = directory c)) ->
  exists st' r0 m,
    Impl.workspaceRoot env None = Ok r0 /\
    Impl.handlePreferencesUpdate env st = Ok st' /\
    Impl.getActiveConfig env None st' = Ok None /\
    JsMap.lookup r0 (Impl.activeConfigs st') = Some None /\
    Impl.activeConfigChangeEmitter st' =
      Impl.activeConfigChangeEmitter st ++ [None] /\
    Impl.activeConfigChange2Emitter st' =
      Impl.activeConfigChange2Emitter st ++ [m] /\
    JsMap.has r0 m = false.
Proof.
  intros Hwf Hact Hstale.
  unfold Impl.handlePreferencesUpdate. rewrite Hact. simpl.
  rewrite (existsb_equals_false c _ Hstale). simpl.
  unfold Impl.getActiveConfig in Hact.
  destruct (Impl.workspaceRoot env None) as [r0|e] eqn:Hr; [|discriminate].
  rewrite (setActiveConfig_resolved _ _ _ _ _ Hr).
  eexists. exists r0. eexists.
  split; [reflexivity|]. split; [reflexivity|].
  rewrite (getActiveConfig_resolved _ _ _ _ Hr). simpl.
  rewrite map_get_set_same, lookup_set_same.
  repeat split. unfold JsMap.has.
  rewrite lookup_definedConfigs by (now apply wf_set).
  now rewrite map_get_set_same.
Qed.

Lemma handlePreferencesUpdate_clears_stale_run :
  exists st' m,
    Impl.handlePreferencesUpdate (env_AB [cfg_release; cfg_blank_name]) debug_at_A
      = Ok st' /\
    Impl.getActiveConfig (env_AB [cfg_release; cfg_blank_name]) None st' = Ok None /\
    Impl.activeConfigChangeEmitter st' = [None] /\
    Impl.activeConfigChange2Emitter st' = [m] /\
    JsMap.has root_A m = false.
Proof.
  assert (Hwf : JsMap.wf (Impl.activeConfigs debug_at_A)).
  { repeat constructor; simpl; intuition discriminate. }
  destruct (handlePreferencesUpdate_clears_stale
              (env_AB [cfg_release; cfg_blank_name]) debug_at_A cfg_debug
              Hwf eq_refl)
    as (st' & r0 & m & Hr & Hh & Hg & _ & Hl & Hm & Hhas).
  - intros a [<-|[]] [Hn _]. discriminate Hn.
  - injection Hr as <-. exists st', m. auto.
Defined.

(** C10, as stated, fails on a manager that never had the default root
    set: nothing is active there, and the handler of a preference change
    creates the key of the default root, holding [undefined].  The map
    goes from no entry to one, and so does the snapshot written. *)
Lemma handlePreferencesUpdate_creates_default_root_key :
  Impl.getActiveConfig (env_AB [cfg_debug]) None fresh = Ok None /\
  exists st',
    Impl.handlePreferencesUpdate (env_AB [cfg_debug]) fresh = Ok st' /\
    Impl.getAllActiveConfigs fresh = [] /\
    Impl.getAllActiveConfigs st' = [(root_A, None)] /\
    JsMap.has root_A (Impl.getAllActiveConfigs fresh) = false /\
    JsMap.has root_A (Impl.getAllActiveConfigs st') = true /\
    Impl.getAllActiveConfigs st' <> Impl.getAllActiveConfigs fresh.
Proof.
  split; [reflexivity|]. eexists. split; [reflexivity|].
  repeat split. discriminate.
Qed.

(** C10, amended.  When nothing is active at the default root, the handler
    of a preference change does what [setActiveConfig(undefined)] does:
    it stores [undefined] at the default root, issues a write of the
    whole map and fires both emitters, the legacy one with [undefined].
    No root reads differently afterwards and no other root's entry
    changes.  The map is unchanged when it had the key of the default
    root; when it had not, the key is created, last, holding
    [undefined]. *)
Theorem handlePreferencesUpdate_nothing_active env st :
  Impl.getActiveConfig env None st = Ok None ->
  exists st' r0,
    Impl.workspaceRoot env None = Ok r0 /\
    Impl.handlePreferencesUpdate env st = Ok st' /\
    Impl.setActiveConfig env None None st = Ok st' /\
    Impl.activeConfigs st' = JsMap.set r0 None (Impl.activeConfigs st) /\
    JsMap.lookup r0 (Impl.activeConfigs st') = Some None /\
    (forall k, k <> r0 ->
       JsMap.lookup k (Impl.activeConfigs st') =
       JsMap.lookup k (Impl.activeConfigs st)) /\
    (forall k, map_get k (Impl.activeConfigs st') = map_get k (Impl.activeConfigs st)) /\
    (JsMap.has r0 (Impl.activeConfigs st) = true ->
       Impl.activeConfigs st' = Impl.activeConfigs st) /\
    (JsMap.has r0 (Impl.activeConfigs st) = false ->
       Impl.activeConfigs st' = Impl.activeConfigs st ++ [(r0, None)]) /\
    pending (Impl.storageService st') =
      pending (Impl.storageService st) ++
        [(Impl.ACTIVE_BUILD_CONFIGURATIONS_MAP_STORAGE_KEY,
          {| configs := Impl.activeConfigs st' |})] /\
    Impl.activeConfigChangeEmitter st' =
      Impl.activeConfigChangeEmitter st ++ [None] /\
    Impl.activeConfigChange2Emitter st' =
      Impl.activeConfigChange2Emitter st ++
        [Impl.definedConfigs (Impl.activeConfigs st')] /\
    (JsMap.wf (Impl.activeConfigs st) ->
     forall k,
       JsMap.lookup k (Impl.definedConfigs (Impl.activeConfigs st')) =
       map_get k (Impl.activeConfigs st)).
Proof.
  intros Hact. unfold Impl.handlePreferencesUpdate. rewrite Hact. simpl.
  unfold Impl.getActiveConfig in Hact.
  destruct (Impl.workspaceRoot env None) as [r0|e] eqn:Hr; [|discriminate].
  simpl in Hact. injection Hact as Hnone.
  rewrite (setActiveConfig_resolved _ _ _ _ _ Hr).
  assert (Hget : forall k,
            map_get k (JsMap.set r0 None (Impl.activeConfigs st)) =
            map_get k (Impl.activeConfigs st)).
  { intros k. destruct (string_dec r0 k) as [<-|Hne].
    - now rewrite map_get_set_same.
    - now apply map_get_set_other. }
  eexists. exists r0.
  split; [reflexivity|]. split; [reflexivity|]. split; [reflexivity|]. simpl.
  split; [reflexivity|]. split; [apply lookup_set_same|].
  split; [intros k Hk; apply lookup_set_other; congruence|].
  split; [exact Hget|]. split; [|split].
  - intros Hhas. apply set_same_value.
    unfold JsMap.has in Hhas. unfold map_get in Hnone.
    destruct (JsMap.lookup r0 (Impl.activeConfigs st)) as [v|]; [|discriminate].
    now subst v.
  - intros Hhas. apply set_fresh. rewrite <- has_true_iff. congruence.
  - repeat split. intros Hwf k.
    rewrite lookup_definedConfigs by (now apply wf_set). apply Hget.
Qed.

Lemma handlePreferencesUpdate_nothing_active_run :
  exists st',
    Impl.handlePreferencesUpdate (env_AB [cfg_debug])
      (Impl.with_activeConfigs [(root_B, Some cfg_release)] fresh) = Ok st' /\
    Impl.activeConfigs st' = [(root_B, Some cfg_release); (root_A, None)] /\
    pending (Impl.storageService st') =
      [(Impl.ACTIVE_BUILD_CONFIGURATIONS_MAP_STORAGE_KEY,
        {| configs := [(root_B, Some cfg_release); (root_A, None)] |})] /\
    Impl.activeConfigChangeEmitter st' = [None] /\
    Impl.activeConfigChange2Emitter st' = [[(root_B, cfg_release)]] /\
    Impl.getActiveConfig (env_AB [cfg_debug]) None st' = Ok None.
Proof.
  destruct (handlePreferencesUpdate_nothing_active (env_AB [cfg_debug])
              (Impl.with_activeConfigs [(root_B, Some cfg_release)] fresh) eq_refl)
    as (st' & r0 & Hr & Hh & Hs & _ & _ & _ & _ & _ & Hnew & Hp & Hl & Hm & _).
  injection Hr as <-.
  exists st'. split; [exact Hh|].
  specialize (Hnew eq_refl).
  split; [exact Hnew|]. split; [now rewrite Hp, Hnew|].
  split; [exact Hl|]. split; [now rewrite Hm, Hnew|].
  injection Hs as <-. reflexivity.
Defined.

(* ================================================================= *)
(** ** The snapshot in the storage service *)

(** Once the storage service has completed every write it was given, it
    holds the writes, applied in the order they were issued. *)
Lemma writes_complete_all st :
  Impl.storageService
    (Impl.writes_complete (length (pending (Impl.storageService st))) st) =
  {| stored :=
       fold_left (fun m e => JsMap.set (fst e) (snd e) m)
         (pending (Impl.storageService st)) (stored (Impl.storageService st));
     pending := [] |}.
Proof.
  remember (pending (Impl.storageService st)) as p eqn:Hp.
  revert st Hp. induction p as [|[key data] p IH]; intros st Hp; simpl.
  - destruct (Impl.storageService st) as [s q]. simpl in *. now subst q.
  - rewrite IH.
    + simpl. unfold complete_write. now rewrite <- Hp.
    + simpl. unfold complete_write. now rewrite <- Hp.
Qed.

Lemma equals_refl (c : CppBuildConfiguration) : equals c c = true.
Proof.
  unfold equals. rewrite !String.eqb_refl. simpl.
  now apply commands_strict_eq_iff.
Qed.

(** C6.  Saving a map [M], letting the storage service complete its writes,
    and loading into a manager constructed anew over that storage gives [M]
    back: the same roots in the same order and, root by root, a
    configuration that [equals] the one of [M], or [undefined] where [M]
    holds [undefined]. *)
Theorem save_then_load_roundtrip
    (M : JsMap.t (option CppBuildConfiguration)) st :
  JsMap.wf M ->
  let saved := Impl.saveActiveConfiguration M st in
  let settled :=
    Impl.writes_complete (length (pending (Impl.storageService saved))) saved in
  let restarted := Impl.create (Impl.storageService settled) in
  let M' := Impl.activeConfigs (Impl.loadActiveConfiguration restarted) in
  M' = M /\
  JsMap.keys M' = JsMap.keys M /\
  forall k,
    match JsMap.lookup k M', JsMap.lookup k M with
    | Some (Some c'), Some (Some c) => equals c' c = true
    | Some None, Some None => True
    | None, None => True
    | _, _ => False
    end.
Proof.
  intros Hwf saved settled restarted M'.
  assert (HM : M' = M).
  { subst M' restarted settled. rewrite writes_complete_all.
    unfold Impl.loadActiveConfiguration, getData. subst saved. simpl.
    rewrite fold_left_app. simpl. rewrite lookup_set_same. simpl.
    now apply of_entries_entries. }
  rewrite HM. repeat split. intros k.
  destruct (JsMap.lookup k M) as [[c|]|]; auto using equals_refl.
Qed.

Lemma save_then_load_roundtrip_run :
  JsMap.wf [(root_A, Some cfg_debug); (root_B, @None CppBuildConfiguration)] /\
  Impl.activeConfigs
    (Impl.loadActiveConfiguration
       (Impl.create
          (Impl.storageService
             (Impl.writes_complete 1
                (Impl.saveActiveConfiguration
                   [(root_A, Some cfg_debug); (root_B, None)] fresh))))) =
  [(root_A, Some cfg_debug); (root_B, None)].
Proof.
  split; [repeat constructor; simpl; intuition discriminate|].
  apply (save_then_load_roundtrip [(root_A, Some cfg_debug); (root_B, None)] fresh).
  repeat constructor; simpl; intuition discriminate.
Defined.

(* ================================================================= *)
(** ** The valid configurations *)

Section ArraySortFacts.
Context {A : Type}.
Variable compareFn : A -> A -> Z.

(** [x] is placed before [y]. *)
Let before (x y : A) : Prop := (compareFn x y <= 0)%Z.

Lemma sort_insert_perm x l : Permutation (sort_insert compareFn x l) (x :: l).
Proof.
  induction l as [|y l IH]; simpl; [reflexivity|].
  destruct (compareFn x y <=? 0)%Z; [reflexivity|].
  rewrite IH. apply perm_swap.
Qed.

Lemma array_sort_perm l : Permutation (array_sort compareFn l) l.
Proof.
  induction l as [|x l IH]; simpl; [reflexivity|].
  rewrite sort_insert_perm. now constructor.
Qed.

(** Of two elements, [compareFn] places one before the other. *)
Hypothesis compareFn_total : forall x y, before x y \/ before y x.

Lemma sort_insert_sorted x l :
  Sorted before l -> Sorted before (sort_insert compareFn x l).
Proof.
  induction 1 as [|y l Hl IH Hhd]; simpl.
  - repeat constructor.
  - destruct (Z.leb_spec (compareFn x y) 0) as [Hle|Hgt].
    + constructor; [now constructor|]. now constructor.
    + constructor; [exact IH|].
      assert (Hyx : before y x).
      { destruct (compareFn_total y x) as [H|H]; [exact H|].
        unfold before in H. lia. }
      destruct l as [|z l]; simpl.
      * now constructor.
      * destruct (compareFn x z <=? 0)%Z; constructor; [exact Hyx|].
        now inversion Hhd.
Qed.

Lemma array_sort_sorted l : Sorted before (array_sort compareFn l).
Proof.
  induction l as [|x l IH]; simpl; [constructor|].
  now apply sort_insert_sorted.
Qed.

(** With a transitive [compareFn], every element is before every later
    one. *)
Lemma array_sort_strongly_sorted l :
  (forall x y z, before x y -> before y z -> before x z) ->
  StronglySorted before (array_sort compareFn l).
Proof.
  intros Htrans. apply Sorted_StronglySorted; [|apply array_sort_sorted].
  intros x y z. apply Htrans.
Qed.

End ArraySortFacts.

Lemma ordinal_compare_total a b :
  (ordinal_compare a b <= 0)%Z \/ (ordinal_compare b a <= 0)%Z.
Proof.
  unfold ordinal_compare. rewrite (String.compare_antisym a b).
  destruct (String.compare b a); simpl; lia.
Qed.

(** C3.  Whatever the raw list, [getValidConfigs] returns its entries with
    a non-empty name and a non-empty directory, all of them and as often
    as they occur, each placed by [localeCompare] of the names before the
    one that follows it.  The collation is taken to order any two
    strings one way or the other. *)
Theorem getValidConfigs_valid_and_sorted env (root : option string) :
  (forall a b, (localeCompare env a b <= 0)%Z \/ (localeCompare env b a <= 0)%Z) ->
  Forall (fun a => name a <> "" /\ directory a <> "")
    (Impl.getValidConfigs env root) /\
  Sorted (fun a b => (localeCompare env (name a) (name b) <= 0)%Z)
    (Impl.getValidConfigs env root) /\
  Permutation (Impl.getValidConfigs env root)
    (filter (fun a => negb (String.eqb (name a) "") &&
                      negb (String.eqb (directory a) ""))
       (Impl.getConfigs env root)).
Proof.
  intros Htotal. unfold Impl.getValidConfigs.
  set (raw := Impl.getConfigs env root).
  set (cmp := fun a b : CppBuildConfiguration => localeCompare env (name a) (name b)).
  split; [|split].
  - apply Forall_forall. intros a Hin.
    apply (Permutation_in _ (array_sort_perm cmp _)) in Hin.
    apply filter_In in Hin as [_ Hv].
    apply andb_true_iff in Hv as [Hn Hd].
    apply negb_true_iff in Hn, Hd.
    now rewrite String.eqb_neq in Hn, Hd.
  - apply (array_sort_sorted cmp). intros x y. apply Htotal.
  - apply array_sort_perm.
Qed.

Lemma getValidConfigs_valid_and_sorted_run :
  Impl.getValidConfigs
    (env_AB [cfg_release; cfg_blank_name; cfg_debug'; cfg_blank_directory; cfg_debug])
    None = [cfg_debug'; cfg_debug; cfg_release] /\
  Sorted (fun a b => (ordinal_compare (name a) (name b) <= 0)%Z)
    (Impl.getValidConfigs
       (env_AB [cfg_release; cfg_blank_name; cfg_debug'; cfg_blank_directory; cfg_debug])
       None).
Proof.
  split; [reflexivity|].
  apply (getValidConfigs_valid_and_sorted
           (env_AB [cfg_release; cfg_blank_name; cfg_debug'; cfg_blank_directory; cfg_debug])
           None ordinal_compare_total).
Defined.

(* ================================================================= *)
(** ** No workspace root *)

(** C4.  With no workspace root and the root argument omitted, both
    [getActiveConfig] and [setActiveConfig] throw a [TypeError], the
    latter before it has changed anything: [tryGetRoots()[0]] is
    [undefined], and its [uri] is read. *)
Theorem no_workspace_root_throws
    env (config : option CppBuildConfiguration) st :
  tryGetRoots env = [] ->
  Impl.getActiveConfig env None st =
    Throw (TypeError "Cannot read property 'uri' of undefined") /\
  Impl.setActiveConfig env config None st =
    Throw (TypeError "Cannot read property 'uri' of undefined").
Proof.
  intros Hroots.
  unfold Impl.getActiveConfig, Impl.setActiveConfig, Impl.workspaceRoot.
  simpl. now rewrite Hroots.
Qed.

Lemma no_workspace_root_throws_run :
  Impl.getActiveConfig env_no_roots None fresh =
    Throw (TypeError "Cannot read property 'uri' of undefined") /\
  Impl.setActiveConfig env_no_roots (Some cfg_debug) None fresh =
    Throw (TypeError "Cannot read property 'uri' of undefined").
Proof.
  apply (no_workspace_root_throws env_no_roots (Some cfg_debug) fresh).
  reflexivity.
Defined.

(* ================================================================= *)
(** ** When the root resolves, and what an empty string does *)

Lemma workspaceRoot_throws_iff env root :
  (exists e, Impl.workspaceRoot env root = Throw e) <->
  truthy root = None /\ tryGetRoots env = [].
Proof.
  unfold Impl.workspaceRoot.
  destruct (truthy root) as [r|]; [|destruct (tryGetRoots env) as [|f l]].
  - split; [intros [e H]; discriminate|intros [H _]; discriminate].
  - split; [auto|eauto].
  - split; [intros [e H]; discriminate|intros [_ H]; discriminate].
Qed.

(** X1.  [getActiveConfig] and [setActiveConfig] throw exactly when the root
    argument is omitted or empty and the workspace has no root;
    [handlePreferencesUpdate] throws exactly when the workspace has no
    root. *)
Theorem throws_iff_no_root
    env (config : option CppBuildConfiguration) (root : option string) st :
  ((exists e, Impl.getActiveConfig env root st = Throw e) <->
     truthy root = None /\ tryGetRoots env = []) /\
  ((exists e, Impl.setActiveConfig env config root st = Throw e) <->
     truthy root = None /\ tryGetRoots env = []) /\
  ((exists e, Impl.handlePreferencesUpdate env st = Throw e) <->
     tryGetRoots env = []).
Proof.
  pose proof (workspaceRoot_throws_iff env root) as Hroot.
  pose proof (workspaceRoot_throws_iff env None) as Hdefault.
  split; [|split].
  - rewrite <- Hroot. unfold Impl.getActiveConfig.
    destruct (Impl.workspaceRoot env root) as [r|e0]; simpl.
    + split; intros [x H]; discriminate.
    + split; intros _; eauto.
  - rewrite <- Hroot. unfold Impl.setActiveConfig.
    destruct (Impl.workspaceRoot env root) as [r|e0]; simpl.
    + split; intros [x H]; discriminate.
    + split; intros _; eauto.
  - assert (Hd : (exists e, Impl.workspaceRoot env None = Throw e) <->
                 tryGetRoots env = []).
    { rewrite Hdefault. simpl. tauto. }
    rewrite <- Hd. clear Hd Hroot Hdefault.
    unfold Impl.handlePreferencesUpdate, Impl.getActiveConfig.
    destruct (Impl.workspaceRoot env None) as [r0|e0] eqn:Hr; simpl.
    + split; [|intros [e H]; discriminate].
      intros [e H]. exfalso.
      match type of H with context [negb ?b] => destruct b end; simpl in H;
        [discriminate|].
      rewrite (setActiveConfig_resolved _ _ _ _ _ Hr) in H. discriminate.
    + split; eauto.
Qed.

(** X2.  An empty string given for the root is an omitted root, in every
    method that takes one. *)
Theorem empty_string_root_is_omitted
    env (config : option CppBuildConfiguration) st :
  Impl.getActiveConfig env (Some "") st = Impl.getActiveConfig env None st /\
  Impl.setActiveConfig env config (Some "") st =
    Impl.setActiveConfig env config None st /\
  Impl.getConfigs env (Some "") = Impl.getConfigs env None /\
  Impl.getValidConfigs env (Some "") = Impl.getValidConfigs env None.
Proof. repeat split. Qed.

(* ================================================================= *)
(** ** Sequences of calls *)

(** The root a call acts on, in a workspace whose first root is [first]. *)
Lemma workspaceRoot_with_roots env first rest root :
  tryGetRoots env = first :: rest ->
  Impl.workspaceRoot env root =
    Ok (match truthy root with Some r => r | None => uri first end).
Proof.
  intros H. unfold Impl.workspaceRoot. rewrite H. now destruct (truthy root).
Qed.

(** X3.  In a workspace with a root, a sequence of calls of [setActiveConfig]
    returns; afterwards every root reads the configuration of the last
    call that acted on it, or what it read before when no call did; the
    legacy emitter has fired the configurations of the calls, one per call
    and in their order, and the multi-root emitter once per call. *)
Theorem setActiveConfig_calls_last_wins
    env first rest (calls : list (option CppBuildConfiguration * option string)) st :
  tryGetRoots env = first :: rest ->
  exists st',
    setActiveConfig_calls env calls st = Ok st' /\
    (forall r,
       map_get r (Impl.activeConfigs st') =
       fold_left
         (fun current call =>
            if String.eqb
                 (match truthy (snd call) with Some r' => r' | None => uri first end) r
            then fst call else current)
         calls (map_get r (Impl.activeConfigs st))) /\
    Impl.activeConfigChangeEmitter st' =
      Impl.activeConfigChangeEmitter st ++ map fst calls /\
    length (Impl.activeConfigChange2Emitter st') =
      length (Impl.activeConfigChange2Emitter st) + length calls.
Proof.
  intros Hroots. revert st.
  induction calls as [|[config root] calls IH]; intros st; simpl.
  - exists st. rewrite app_nil_r, Nat.add_0_r. auto.
  - rewrite (setActiveConfig_resolved _ _ _ _ _
               (workspaceRoot_with_roots env first rest root Hroots)).
    simpl. set (target := match truthy root with Some r' => r' | None => uri first end).
    match goal with |- context [setActiveConfig_calls env calls ?s] =>
      destruct (IH s) as (st' & Hrun & Hget & Hlegacy & Hmulti) end.
    exists st'. split; [exact Hrun|]. simpl in *. split; [|split].
    + intros r. rewrite Hget. f_equal.
      destruct (String.eqb_spec target r) as [<-|Hne].
      * apply map_get_set_same.
      * now apply map_get_set_other.
    + now rewrite Hlegacy, <- app_assoc.
    + rewrite Hmulti, length_app. simpl. lia.
Qed.

Lemma setActiveConfig_calls_last_wins_run :
  exists st',
    setActiveConfig_calls (env_AB [])
      [(Some cfg_debug, Some root_B); (Some cfg_release, None);
       (None, Some root_B)] fresh = Ok st' /\
    map_get root_A (Impl.activeConfigs st') = Some cfg_release /\
    map_get root_B (Impl.activeConfigs st') = None /\
    Impl.activeConfigChangeEmitter st' = [Some cfg_debug; Some cfg_release; None].
Proof.
  destruct (setActiveConfig_calls_last_wins (env_AB []) {| uri := root_A |}
              [ {| uri := root_B |} ]
              [(Some cfg_debug, Some root_B); (Some cfg_release, None);
               (None, Some root_B)] fresh eq_refl)
    as (st' & Hrun & Hget & Hlegacy & _).
  exists st'. split; [exact Hrun|].
  split; [apply (Hget root_A)|]. split; [apply (Hget root_B)|exact Hlegacy].
Defined.

(* ================================================================= *)
(** ** What a call leaves in the map, the storage and the emitter *)

Lemma pending_writes_complete_all st :
  pending (settled st) = [] /\
  stored (settled st) =
    fold_left (fun m e => JsMap.set (fst e) (snd e) m)
      (pending (Impl.storageService st)) (stored (Impl.storageService st)).
Proof. unfold settled. now rewrite writes_complete_all. Qed.

(** From the moment a call of [setActiveConfig] has returned, and however
    many writes the storage service has completed since, a read of the
    snapshot gives the map as the call left it. *)
Lemma getData_after_setActiveConfig env config root st st' n :
  Impl.setActiveConfig env config root st = Ok st' ->
  getData Impl.ACTIVE_BUILD_CONFIGURATIONS_MAP_STORAGE_KEY
    (Impl.storageService (Impl.writes_complete n st')) =
    Some {| configs := Impl.activeConfigs st' |}.
Proof.
  intros H. destruct (setActiveConfig_returns _ _ _ _ _ H) as [r Hr].
  rewrite (setActiveConfig_resolved _ _ _ _ _ Hr) in H. injection H as <-.
  rewrite getData_writes_complete. simpl. apply getData_setData.
Qed.

Lemma settled_after_setActiveConfig env config root st st' :
  Impl.setActiveConfig env config root st = Ok st' ->
  getData Impl.ACTIVE_BUILD_CONFIGURATIONS_MAP_STORAGE_KEY (settled st') =
    Some {| configs := JsMap.entries (Impl.activeConfigs st') |}.
Proof. intros H. unfold settled. apply (getData_after_setActiveConfig _ _ _ _ _ _ H). Qed.

(** X4.  A call of [setActiveConfig] that returns has issued one write,
    after those issued before: the entries of the map as the call left
    it.  From then on, whether the storage service has completed the
    write or not, a read of the snapshot gives these entries; and once
    all writes are completed they are what the storage holds. *)
Theorem setActiveConfig_persists_map
    env (config : option CppBuildConfiguration) (root : option string) st st' n :
  Impl.setActiveConfig env config root st = Ok st' ->
  pending (Impl.storageService st') =
    pending (Impl.storageService st) ++
      [(Impl.ACTIVE_BUILD_CONFIGURATIONS_MAP_STORAGE_KEY,
        {| configs := Impl.activeConfigs st' |})] /\
  getData Impl.ACTIVE_BUILD_CONFIGURATIONS_MAP_STORAGE_KEY
    (Impl.storageService (Impl.writes_complete n st')) =
    Some {| configs := Impl.activeConfigs st' |} /\
  pending (settled st') = [] /\
  JsMap.lookup Impl.ACTIVE_BUILD_CONFIGURATIONS_MAP_STORAGE_KEY (stored (settled st')) =
    Some {| configs := Impl.activeConfigs st' |}.
Proof.
  intros H.
  pose proof (getData_after_setActiveConfig _ _ _ _ _ n H) as Hread.
  pose proof (settled_after_setActiveConfig _ _ _ _ _ H) as Hsettled.
  destruct (pending_writes_complete_all st') as [Hpending _].
  unfold getData in Hsettled. rewrite Hpending in Hsettled. simpl in Hsettled.
  destruct (setActiveConfig_returns _ _ _ _ _ H) as [r Hr].
  rewrite (setActiveConfig_resolved _ _ _ _ _ Hr) in H. injection H as <-.
  split; [reflexivity|]. split; [exact Hread|]. split; [exact Hpending|exact Hsettled].
Qed.

Lemma setActiveConfig_persists_map_run :
  exists st',
    Impl.setActiveConfig (env_AB []) None (Some root_A) debug_at_A = Ok st' /\
    pending (Impl.storageService st') =
      [(Impl.ACTIVE_BUILD_CONFIGURATIONS_MAP_STORAGE_KEY,
        {| configs := [(root_A, None); (root_B, Some cfg_release)] |})] /\
    getData Impl.ACTIVE_BUILD_CONFIGURATIONS_MAP_STORAGE_KEY
      (Impl.storageService (Impl.writes_complete 0 st')) =
      Some {| configs := [(root_A, None); (root_B, Some cfg_release)] |} /\
    JsMap.lookup Impl.ACTIVE_BUILD_CONFIGURATIONS_MAP_STORAGE_KEY (stored (settled st')) =
      Some {| configs := [(root_A, None); (root_B, Some cfg_release)] |}.
Proof.
  eexists. split; [reflexivity|].
  destruct (setActiveConfig_persists_map (env_AB []) None (Some root_A)
              debug_at_A _ 0 eq_refl) as (Hp & Hread & _ & Hstored).
  split; [exact Hp|]. split; [exact Hread|exact Hstored].
Defined.

(** X5.  [setActiveConfig] never removes a root from the map: a root that is
    there keeps its place, also when it is cleared, and a new root comes
    last. *)
Theorem setActiveConfig_keys
    env (config : option CppBuildConfiguration) (root : option string) st st' r :
  Impl.workspaceRoot env root = Ok r ->
  Impl.setActiveConfig env config root st = Ok st' ->
  JsMap.keys (Impl.activeConfigs st') =
    (if JsMap.has r (Impl.activeConfigs st)
     then JsMap.keys (Impl.activeConfigs st)
     else JsMap.keys (Impl.activeConfigs st) ++ [r]) /\
  (forall k, JsMap.has k (Impl.activeConfigs st) = true ->
             JsMap.has k (Impl.activeConfigs st') = true).
Proof.
  intros Hr H. rewrite (setActiveConfig_resolved _ _ _ _ _ Hr) in H.
  injection H as <-. simpl.
  assert (Hkeys : JsMap.keys (JsMap.set r config (Impl.activeConfigs st)) =
                  if JsMap.has r (Impl.activeConfigs st)
                  then JsMap.keys (Impl.activeConfigs st)
                  else JsMap.keys (Impl.activeConfigs st) ++ [r]).
  { destruct (JsMap.has r (Impl.activeConfigs st)) eqn:Hhas.
    - apply keys_set_in. now apply has_true_iff.
    - rewrite set_fresh.
      + unfold JsMap.keys. now rewrite map_app.
      + rewrite <- has_true_iff. congruence. }
  split; [exact Hkeys|].
  intros k Hk. apply has_true_iff. rewrite Hkeys. apply has_true_iff in Hk.
  destruct (JsMap.has r (Impl.activeConfigs st)); [exact Hk|].
  apply in_or_app. now left.
Qed.

Lemma setActiveConfig_keys_run :
  exists st',
    Impl.setActiveConfig (env_AB []) None (Some root_A) debug_at_A = Ok st' /\
    JsMap.keys (Impl.activeConfigs st') = [root_A; root_B].
Proof.
  eexists. split; [reflexivity|].
  apply (setActiveConfig_keys (env_AB []) None (Some root_A) debug_at_A _ root_A
           eq_refl eq_refl).
Defined.

(** The loop of [setActiveConfig] on a map, started from any map whose
    keys are not keys of the first. *)
Lemma fold_defined_fresh (l : list (string * option CppBuildConfiguration))
    (acc : JsMap.t CppBuildConfiguration) :
  NoDup (JsMap.keys acc ++ JsMap.keys l) ->
  fold_left
    (fun activeConfigurations entry =>
       match snd entry with
       | Some cppConfig => JsMap.set (fst entry) cppConfig activeConfigurations
       | None => activeConfigurations
       end) l acc =
  acc ++ flat_map (fun entry => match snd entry with
                                | Some cppConfig => [(fst entry, cppConfig)]
                                | None => []
                                end) l.
Proof.
  revert acc. induction l as [|[k [c|]] l IH]; intros acc Hnd; simpl.
  - now rewrite app_nil_r.
  - assert (Hk : ~ In k (JsMap.keys acc)).
    { apply NoDup_remove_2 in Hnd. intros Hin. apply Hnd.
      apply in_or_app. now left. }
    rewrite set_fresh by exact Hk. rewrite IH.
    + now rewrite <- app_assoc.
    + unfold JsMap.keys in *. rewrite map_app. simpl. now rewrite <- app_assoc.
  - apply IH. simpl in Hnd. now apply NoDup_remove_1 in Hnd.
Qed.

(** X6.  The map a call of [setActiveConfig] hands to the multi-root emitter
    is the map of the manager without the roots that hold [undefined],
    the others in the order the manager has them. *)
Theorem setActiveConfig_fires_in_map_order
    env (config : option CppBuildConfiguration) (root : option string) st st' :
  JsMap.wf (Impl.activeConfigs st) ->
  Impl.setActiveConfig env config root st = Ok st' ->
  Impl.activeConfigChange2Emitter st' =
    Impl.activeConfigChange2Emitter st ++
      [flat_map (fun entry => match snd entry with
                              | Some cppConfig => [(fst entry, cppConfig)]
                              | None => []
                              end) (Impl.activeConfigs st')].
Proof.
  intros Hwf H. pose proof (setActiveConfig_wf _ _ _ _ _ Hwf H) as Hwf'.
  destruct (setActiveConfig_returns _ _ _ _ _ H) as [r Hr].
  rewrite (setActiveConfig_resolved _ _ _ _ _ Hr) in H. injection H as <-.
  simpl in *. do 2 f_equal. unfold Impl.definedConfigs, JsMap.entries.
  now rewrite fold_defined_fresh.
Qed.

Lemma setActiveConfig_fires_in_map_order_run :
  exists st',
    Impl.setActiveConfig (env_AB []) None (Some root_A) debug_at_A = Ok st' /\
    Impl.activeConfigChange2Emitter st' = [[(root_B, cfg_release)]].
Proof.
  assert (Hwf : JsMap.wf (Impl.activeConfigs debug_at_A)).
  { repeat constructor; simpl; intuition discriminate. }
  eexists. split; [reflexivity|].
  exact (setActiveConfig_fires_in_map_order (env_AB []) None (Some root_A)
           debug_at_A _ Hwf eq_refl).
Defined.

(* ================================================================= *)
(** ** More on the re-validation *)

(** X7.  A preference change leaves the manager as it is when a valid
    configuration has the name and the directory of the active one: the
    active configuration stays the object it was, nothing is written and
    no emitter fires. *)
Theorem handlePreferencesUpdate_keeps_valid
    env st (c a : CppBuildConfiguration) :
  Impl.getActiveConfig env None st = Ok (Some c) ->
  In a (Impl.getValidConfigs env None) ->
  name a = name c -> directory a = directory c ->
  Impl.handlePreferencesUpdate env st = Ok st.
Proof.
  intros Hact Hin Hn Hd. unfold Impl.handlePreferencesUpdate.
  rewrite Hact. simpl.
  assert (Hex : existsb (fun a0 => Impl.equals a0 c)
                  (Impl.getValidConfigs env None) = true).
  { apply existsb_exists. exists a. split; [exact Hin|].
    unfold Impl.equals. now rewrite Hn, Hd, !String.eqb_refl. }
  now rewrite Hex.
Qed.

Lemma handlePreferencesUpdate_keeps_valid_run :
  Impl.handlePreferencesUpdate (env_AB [cfg_release; cfg_debug']) debug_at_A
  = Ok debug_at_A.
Proof.
  apply (handlePreferencesUpdate_keeps_valid
           (env_AB [cfg_release; cfg_debug']) debug_at_A cfg_debug cfg_debug');
    try reflexivity.
  simpl. auto.
Defined.

(** X8.  A preference change reads and writes the first workspace root only:
    when the handler returns, every other root has the entry it had,
    whether its configuration is still listed or not, and the first root
    either has its entry too, the manager being untouched, or holds
    [undefined]. *)
Theorem handlePreferencesUpdate_first_root_only env st st' :
  Impl.handlePreferencesUpdate env st = Ok st' ->
  exists r0,
    Impl.workspaceRoot env None = Ok r0 /\
    (forall k, k <> r0 ->
       JsMap.lookup k (Impl.activeConfigs st') =
       JsMap.lookup k (Impl.activeConfigs st)) /\
    (st' = st \/ JsMap.lookup r0 (Impl.activeConfigs st') = Some None).
Proof.
  unfold Impl.handlePreferencesUpdate, Impl.getActiveConfig.
  destruct (Impl.workspaceRoot env None) as [r0|e] eqn:Hr; simpl; [|discriminate].
  intros H. exists r0. split; [reflexivity|].
  match type of H with context [negb ?b] => destruct b end; simpl in H.
  - injection H as <-. auto.
  - rewrite (setActiveConfig_resolved _ _ _ _ _ Hr) in H. injection H as <-.
    simpl. split.
    + intros k Hk. apply lookup_set_other. congruence.
    + right. apply lookup_set_same.
Qed.

Lemma handlePreferencesUpdate_first_root_only_run :
  exists st',
    Impl.handlePreferencesUpdate (env_AB []) debug_at_A = Ok st' /\
    JsMap.lookup root_A (Impl.activeConfigs st') = Some None /\
    JsMap.lookup root_B (Impl.activeConfigs st') = Some (Some cfg_release).
Proof.
  eexists. split; [reflexivity|].
  destruct (handlePreferencesUpdate_first_root_only (env_AB []) debug_at_A _ eq_refl)
    as (r0 & Hr & Hothers & _).
  injection Hr as <-. split; [reflexivity|].
  rewrite (Hothers root_B); [reflexivity|discriminate].
Defined.

(* ================================================================= *)
(** ** More on the valid configurations *)

(** X10.  Whatever the collation does, [getValidConfigs] returns the listed
    configurations with a non-empty name and a non-empty directory, and
    no other; it returns no more entries than are listed. *)
Theorem getValidConfigs_membership env (root : option string) :
  (forall a,
     In a (Impl.getValidConfigs env root) <->
     In a (Impl.getConfigs env root) /\ name a <> "" /\ directory a <> "") /\
  length (Impl.getValidConfigs env root) <= length (Impl.getConfigs env root).
Proof.
  unfold Impl.getValidConfigs.
  set (cmp := fun a b : CppBuildConfiguration => localeCompare env (name a) (name b)).
  set (valid := fun a : CppBuildConfiguration =>
                  negb (String.eqb (name a) "") && negb (String.eqb (directory a) "")).
  pose proof (array_sort_perm cmp (filter valid (Impl.getConfigs env root))) as Hperm.
  split.
  - intros a. split.
    + intros Hin. apply (Permutation_in _ Hperm) in Hin.
      apply filter_In in Hin as [Hin Hv]. split; [exact Hin|].
      unfold valid in Hv. apply andb_true_iff in Hv as [Hn Hd].
      apply negb_true_iff in Hn, Hd. now rewrite String.eqb_neq in Hn, Hd.
    + intros (Hin & Hn & Hd).
      apply (Permutation_in _ (Permutation_sym Hperm)).
      apply filter_In. split; [exact Hin|]. unfold valid.
      apply String.eqb_neq in Hn, Hd. now rewrite Hn, Hd.
  - rewrite (Permutation_length Hperm). apply filter_length_le.
Qed.

(* ================================================================= *)
(** ** Loading the snapshot *)

(** Of the entries given to [new Map], the last one of a key counts. *)
Lemma lookup_fold_set_rev {V} k (l : list (string * V)) m :
  JsMap.lookup k (fold_left (fun m e => JsMap.set (fst e) (snd e) m) l m) =
  match JsMap.lookup k (rev l) with
  | Some v => Some v
  | None => JsMap.lookup k m
  end.
Proof.
  revert m. induction l as [|[k' v'] l IH]; intros m; simpl; [reflexivity|].
  rewrite IH, lookup_app, lookup_set. simpl.
  destruct (JsMap.lookup k (rev l)); [reflexivity|].
  now destruct (String.eqb k' k).
Qed.

(** X12.  [loadActiveConfiguration] fires no emitter and writes nothing.  With
    no snapshot stored it keeps the map; with a snapshot it drops the map
    it had, whatever was set in it, and each root reads what the last
    entry of that root in the snapshot holds. *)
Theorem loadActiveConfiguration_replaces_map st :
  Impl.activeConfigChangeEmitter (Impl.loadActiveConfiguration st) =
    Impl.activeConfigChangeEmitter st /\
  Impl.activeConfigChange2Emitter (Impl.loadActiveConfiguration st) =
    Impl.activeConfigChange2Emitter st /\
  Impl.storageService (Impl.loadActiveConfiguration st) = Impl.storageService st /\
  (getData Impl.ACTIVE_BUILD_CONFIGURATIONS_MAP_STORAGE_KEY (Impl.storageService st)
     = None ->
   Impl.loadActiveConfiguration st = st) /\
  (forall savedConfig,
     getData Impl.ACTIVE_BUILD_CONFIGURATIONS_MAP_STORAGE_KEY (Impl.storageService st)
       = Some savedConfig ->
     forall k,
       JsMap.lookup k (Impl.activeConfigs (Impl.loadActiveConfiguration st)) =
       JsMap.lookup k (rev (configs savedConfig))).
Proof.
  unfold Impl.loadActiveConfiguration.
  destruct (getData _ _) as [saved|]; simpl; repeat split; try discriminate.
  intros savedConfig [= <-] k. unfold JsMap.of_entries.
  rewrite lookup_fold_set_rev. now destruct (JsMap.lookup k (rev (configs saved))).
Qed.

(* ================================================================= *)
(** ** The life of an instance *)

(** X13.  The selection survives a restart.  After a call of [setActiveConfig]
    that returned and the completion of the writes, an instance
    constructed over the same storage, once its [init] has run through,
    has the map the call left, reads the configuration of the call at
    the root of the call, and has fired no emitter. *)
Theorem selection_survives_restart
    env env' (config : option CppBuildConfiguration) (root : option string) st st1 :
  JsMap.wf (Impl.activeConfigs st) ->
  Impl.setActiveConfig env config root st = Ok st1 ->
  exists i,
    deliver_all env' [PreferencesReady; StorageAnswers] (construct (settled st1))
      = Ok i /\
    stage i = Ready /\
    Impl.activeConfigs (this i) = Impl.activeConfigs st1 /\
    Impl.getActiveConfig env root (this i) = Ok config /\
    Impl.activeConfigChangeEmitter (this i) = [] /\
    Impl.activeConfigChange2Emitter (this i) = [].
Proof.
  intros Hwf H.
  pose proof (settled_after_setActiveConfig _ _ _ _ _ H) as Hsnapshot.
  pose proof (setActiveConfig_wf _ _ _ _ _ Hwf H) as Hwf1.
  destruct (setActiveConfig_returns _ _ _ _ _ H) as [r Hr].
  destruct (setActiveConfig_stores _ _ _ _ _ 0 _ Hr H) as [Hget _].
  simpl in Hget.
  eexists. split; [reflexivity|]. simpl.
  unfold Impl.loadActiveConfiguration. simpl. rewrite Hsnapshot. simpl.
  rewrite (of_entries_entries _ Hwf1).
  repeat split.
  rewrite (getActiveConfig_resolved _ _ _ _ Hr). simpl.
  now rewrite (getActiveConfig_resolved _ _ _ _ Hr) in Hget.
Qed.

Lemma selection_survives_restart_run :
  exists st1 i,
    Impl.setActiveConfig (env_AB []) (Some cfg_debug') (Some root_B) debug_at_A
      = Ok st1 /\
    deliver_all env_no_roots [PreferencesReady; StorageAnswers]
      (construct (settled st1)) = Ok i /\
    Impl.activeConfigs (this i) =
      [(root_A, Some cfg_debug); (root_B, Some cfg_debug')].
Proof.
  assert (Hwf : JsMap.wf (Impl.activeConfigs debug_at_A)).
  { repeat constructor; simpl; intuition discriminate. }
  eexists.
  destruct (selection_survives_restart (env_AB []) env_no_roots (Some cfg_debug')
              (Some root_B) debug_at_A _ Hwf eq_refl)
    as (i & Hrun & _ & Hmap & _).
  exists i. split; [reflexivity|]. split; [exact Hrun|exact Hmap].
Defined.

Lemma deliver_awaiting_preferences env e i :
  stage i = AwaitingPreferences ->
  e = PreferenceChanged \/ e = StorageAnswers ->
  deliver env e i = Ok i.
Proof. intros Hs [-> | ->]; simpl; now rewrite Hs. Qed.

(** X14.  Until [cppPreferences.ready] is resolved, [init] has not subscribed
    and has not asked the storage: preference changes and answers of the
    storage leave the instance as it was constructed. *)
Theorem nothing_handled_before_preferences_ready env events storage :
  Forall (fun e => e = PreferenceChanged \/ e = StorageAnswers) events ->
  deliver_all env events (construct storage) = Ok (construct storage).
Proof.
  induction 1 as [|e events He _ IH]; simpl; [reflexivity|].
  now rewrite (deliver_awaiting_preferences env e (construct storage) eq_refl He).
Qed.

Lemma nothing_handled_before_preferences_ready_run :
  deliver_all env_no_roots [PreferenceChanged; StorageAnswers; PreferenceChanged]
    (construct storage_with_snapshot) = Ok (construct storage_with_snapshot).
Proof.
  apply (nothing_handled_before_preferences_ready env_no_roots
           [PreferenceChanged; StorageAnswers; PreferenceChanged]
           storage_with_snapshot).
  repeat (constructor; [auto|]). constructor.
Defined.

(** X15.  [init] subscribes before the snapshot is loaded.  A preference change
    that arrives in between is handled on the empty map: it clears the
    first workspace root, fires both emitters and writes the map; once
    the writes are completed, the storage holds that one entry in place
    of the snapshot it held, and that is what an instance constructed
    afterwards loads. *)
Theorem preference_change_while_loading env env' first rest storage :
  tryGetRoots env = first :: rest ->
  exists i j,
    deliver_all env [PreferencesReady; PreferenceChanged] (construct storage) = Ok i /\
    stage i = AwaitingStorage /\
    Impl.activeConfigChangeEmitter (this i) = [None] /\
    Impl.activeConfigChange2Emitter (this i) = [[]] /\
    getData Impl.ACTIVE_BUILD_CONFIGURATIONS_MAP_STORAGE_KEY (settled (this i)) =
      Some {| configs := [(uri first, None)] |} /\
    deliver_all env' [PreferencesReady; StorageAnswers]
      (construct (settled (this i))) = Ok j /\
    Impl.activeConfigs (this j) = [(uri first, None)].
Proof.
  intros Hroots.
  pose proof (workspaceRoot_default env first rest Hroots) as Hr.
  assert (Hupd : Impl.handlePreferencesUpdate env (Impl.create storage) =
                 Impl.setActiveConfig env None None (Impl.create storage)).
  { unfold Impl.handlePreferencesUpdate.
    now rewrite (getActiveConfig_resolved _ _ _ _ Hr). }
  destruct (Impl.setActiveConfig env None None (Impl.create storage))
    as [st1|e] eqn:Hset.
  2:{ rewrite (setActiveConfig_resolved _ _ _ _ _ Hr) in Hset. discriminate. }
  pose proof (settled_after_setActiveConfig _ _ _ _ _ Hset) as Hsnapshot.
  assert (Hst1 : Impl.activeConfigs st1 = [(uri first, None)] /\
                 Impl.activeConfigChangeEmitter st1 = [None] /\
                 Impl.activeConfigChange2Emitter st1 = [[]]).
  { rewrite (setActiveConfig_resolved _ _ _ _ _ Hr) in Hset.
    injection Hset as <-. simpl. auto. }
  destruct Hst1 as (Hmap & Hlegacy & Hmulti).
  rewrite Hmap in Hsnapshot.
  exists {| this := st1; stage := AwaitingStorage |}. eexists.
  split; [simpl; now rewrite Hupd|]. simpl.
  split; [reflexivity|]. split; [exact Hlegacy|]. split; [exact Hmulti|].
  split; [exact Hsnapshot|]. split; [reflexivity|]. simpl.
  unfold Impl.loadActiveConfiguration. simpl. rewrite Hsnapshot. simpl.
  reflexivity.
Qed.

Lemma preference_change_while_loading_run :
  exists i,
    deliver_all (env_AB [cfg_release; cfg_debug])
      [PreferencesReady; PreferenceChanged] (construct storage_with_snapshot) = Ok i /\
    getData Impl.ACTIVE_BUILD_CONFIGURATIONS_MAP_STORAGE_KEY storage_with_snapshot =
      Some {| configs := [(root_A, Some cfg_release); (root_B, Some cfg_debug)] |} /\
    getData Impl.ACTIVE_BUILD_CONFIGURATIONS_MAP_STORAGE_KEY (settled (this i)) =
      Some {| configs := [(root_A, None)] |}.
Proof.
  destruct (preference_change_while_loading (env_AB [cfg_release; cfg_debug])
              (env_AB [cfg_release; cfg_debug]) {| uri := root_A |}
              [ {| uri := root_B |} ] storage_with_snapshot eq_refl)
    as (i & j & Hrun & _ & _ & _ & Hdata & _).
  exists i. split; [exact Hrun|]. split; [reflexivity|exact Hdata].
Defined.

(* ================================================================= *)
(** ** The type guard *)

(** X16.  [isCppBuildConfiguration] throws on [undefined] and [null] and on
    nothing else; it rejects the other primitives; an object it accepts
    exactly when neither its [name] nor its [directory] is [undefined].
    So it accepts every value of type [CppBuildConfiguration], also one
    with an empty name or directory, which [getValidConfigs] drops. *)
Theorem isCppBuildConfiguration_cases (arg : JsValue) :
  ((exists e, isCppBuildConfiguration arg = Throw e) <->
     arg = JsUndefined \/ arg = JsNull) /\
  (forall id properties,
     arg = JsObject id properties ->
     isCppBuildConfiguration arg =
       Ok (not_undefined (property "name" properties) &&
           not_undefined (property "directory" properties))) /\
  ((exists b, arg = JsBoolean b) \/ (exists n, arg = JsNumber n) \/
   (exists s, arg = JsString s) ->
   isCppBuildConfiguration arg = Ok false) /\
  (forall c : CppBuildConfiguration,
     arg = to_js c -> isCppBuildConfiguration arg = Ok true).
Proof.
  split; [|split; [|split]].
  - unfold isCppBuildConfiguration.
    destruct arg as [| |b|n|s|id properties]; simpl.
    + split; [auto|eauto].
    + split; [auto|eauto].
    + split; [intros [e H]; discriminate|intros [H|H]; discriminate].
    + split; [intros [e H]; discriminate|intros [H|H]; discriminate].
    + split; [intros [e H]; discriminate|intros [H|H]; discriminate].
    + destruct (not_undefined (property "name" properties)); simpl;
        (split; [intros [e H]; discriminate|intros [H|H]; discriminate]).
  - intros id properties ->. unfold isCppBuildConfiguration. simpl.
    now destruct (not_undefined (property "name" properties)).
  - intros [[b ->]|[[n ->]|[s ->]]]; reflexivity.
  - intros c ->. reflexivity.
Qed.

(* ================================================================= *)
(** ** Lists that are sorted already, and repeated preference changes *)

Lemma array_sort_of_sorted {A} (compareFn : A -> A -> Z) l :
  Sorted (fun x y => (compareFn x y <= 0)%Z) l -> array_sort compareFn l = l.
Proof.
  induction 1 as [|x l Hl IH Hhd]; simpl; [reflexivity|].
  rewrite IH. destruct Hhd as [|y l' Hxy]; simpl; [reflexivity|].
  apply Z.leb_le in Hxy. now rewrite Hxy.
Qed.

Lemma filter_of_Forall {A} (f : A -> bool) l :
  Forall (fun x => f x = true) l -> filter f l = l.
Proof.
  induction 1 as [|x l Hx _ IH]; simpl; [reflexivity|].
  now rewrite Hx, IH.
Qed.

(** X11.  A list of configurations that all have a name and a directory and
    that is in the order of [localeCompare] on the names is returned by
    [getValidConfigs] as it is listed. *)
Theorem getValidConfigs_of_valid_sorted env (root : option string) :
  Forall (fun a => name a <> "" /\ directory a <> "") (Impl.getConfigs env root) ->
  Sorted (fun a b => (localeCompare env (name a) (name b) <= 0)%Z)
    (Impl.getConfigs env root) ->
  Impl.getValidConfigs env root = Impl.getConfigs env root.
Proof.
  intros Hvalid Hsorted. unfold Impl.getValidConfigs.
  rewrite filter_of_Forall.
  - now apply array_sort_of_sorted.
  - apply Forall_forall. intros a Hin.
    destruct (proj1 (Forall_forall _ _) Hvalid a Hin) as [Hn Hd].
    apply String.eqb_neq in Hn, Hd. now rewrite Hn, Hd.
Qed.

Lemma getValidConfigs_of_valid_sorted_run :
  Impl.getValidConfigs (env_AB [cfg_debug; cfg_debug'; cfg_release]) None =
  [cfg_debug; cfg_debug'; cfg_release].
Proof.
  apply (getValidConfigs_of_valid_sorted
           (env_AB [cfg_debug; cfg_debug'; cfg_release]) None).
  - repeat constructor; discriminate.
  - repeat constructor; simpl; unfold ordinal_compare; simpl; lia.
Defined.

(** X9.  A second preference change right after a first one, the preferences
    being the same, returns with the map the first one left; when the
    first one cleared the first workspace root, the second one writes
    the map and fires both emitters again. *)
Theorem handlePreferencesUpdate_twice env st st1 :
  Impl.handlePreferencesUpdate env st = Ok st1 ->
  exists st2,
    Impl.handlePreferencesUpdate env st1 = Ok st2 /\
    Impl.activeConfigs st2 = Impl.activeConfigs st1 /\
    (st1 = st -> st2 = st1) /\
    (st1 <> st ->
       Impl.activeConfigChangeEmitter st2 =
         Impl.activeConfigChangeEmitter st ++ [None; None] /\
       length (Impl.activeConfigChange2Emitter st2) =
         length (Impl.activeConfigChange2Emitter st) + 2 /\
       length (pending (Impl.storageService st2)) =
         length (pending (Impl.storageService st)) + 2).
Proof.
  intros H. unfold Impl.handlePreferencesUpdate in H.
  destruct (Impl.getActiveConfig env None st) as [active|e] eqn:Hact;
    simpl in H; [|discriminate].
  unfold Impl.getActiveConfig in Hact.
  destruct (Impl.workspaceRoot env None) as [r0|e] eqn:Hr; [|discriminate].
  simpl in Hact. injection Hact as Hact.
  match type of H with context [negb ?b] => destruct b eqn:Hvalid end; simpl in H.
  - injection H as <-. exists st. unfold Impl.handlePreferencesUpdate.
    rewrite (getActiveConfig_resolved _ _ _ _ Hr), Hact. simpl.
    rewrite Hvalid. simpl. repeat split; congruence.
  - rewrite (setActiveConfig_resolved _ _ _ _ _ Hr) in H. injection H as <-.
    unfold Impl.handlePreferencesUpdate.
    rewrite (getActiveConfig_resolved _ _ _ _ Hr). simpl.
    rewrite map_get_set_same. simpl.
    rewrite (setActiveConfig_resolved _ _ _ _ _ Hr). simpl.
    eexists. split; [reflexivity|]. simpl.
    split; [apply set_set_same|]. split.
    + intros Heq. exfalso.
      apply (f_equal (fun s => length (Impl.activeConfigChangeEmitter s))) in Heq.
      simpl in Heq. rewrite length_app in Heq. simpl in Heq. lia.
    + intros _. rewrite <- !app_assoc. simpl.
      rewrite !length_app. simpl. repeat split; lia.
Qed.

Lemma handlePreferencesUpdate_twice_run :
  exists st1 st2,
    Impl.handlePreferencesUpdate (env_AB [cfg_release]) debug_at_A = Ok st1 /\
    Impl.handlePreferencesUpdate (env_AB [cfg_release]) st1 = Ok st2 /\
    Impl.activeConfigs st2 = Impl.activeConfigs st1 /\
    Impl.activeConfigChangeEmitter st2 = [None; None].
Proof.
  eexists.
  destruct (handlePreferencesUpdate_twice (env_AB [cfg_release]) debug_at_A _ eq_refl)
    as (st2 & H2 & Hmap & _ & Hfired).
  exists st2. split; [reflexivity|]. split; [exact H2|]. split; [exact Hmap|].
  apply Hfired. discriminate.
Defined.
